(** * Casino API: game outcome and settlement engine

    A shallow embedding of [src/main.py] (roulette, slots, blackjack and the
    shared settlement step) together with the properties stated about it.

    Conventions of the embedding.
    - Python [float] amounts (balances, stakes, payouts) are exact rationals
      [Q]; [round(x, 2)] is rounding to the nearest hundredth, ties to even.
      Binary rounding error of IEEE doubles is outside the model.
    - A Python [str] that is sliced is a list of code points ([str]); strings
      that are only compared or concatenated are [string] (UTF-8 bytes).
    - A handler is a function from the document store to a result (a value
      or the raised exception) and the store left behind: an exception does
      not undo the writes made before it.
    - Every call of [random] and every identifier allocated by the store is
      an explicit argument of the handler. *)

From Stdlib Require Import Ascii String QArith Qround Lqa.
From stdpp Require Import gmap strings list fin_maps pretty.

(* ------------------------------------------------------------------ *)
(** ** Exceptions and results *)

Inductive exn : Type :=
| HTTPException (status_code : Z) (detail : string)
| RequestValidationError          (* FastAPI answers 422 *)
| InvalidId                       (* bson.errors.InvalidId *)
| KeyError
| IndexError
| TypeError.

Inductive Result (A : Type) : Type :=
| Ok (a : A)
| Raise (e : exn).
Arguments Ok {A} a.
Arguments Raise {A} e.

Definition rbind {A B} (m : Result A) (k : A → Result B) : Result B :=
  match m with
  | Ok a => k a
  | Raise e => Raise e
  end.

Notation "'try' x := m 'in' k" := (rbind m (λ x, k))
  (at level 10, x name, m at level 100, k at level 200,
   format "'[v' 'try'  x  :=  m  'in' '/' k ']'").

(** The status an exception reaches the client with: an [HTTPException]
    carries its own, a request that fails schema validation is answered 422,
    anything else is an unhandled error (500). *)
Definition status_of (e : exn) : Z :=
  match e with
  | HTTPException c _ => c
  | RequestValidationError => 422
  | _ => 500
  end.

Definition is_HTTPException (e : exn) : bool :=
  match e with
  | HTTPException _ _ => true
  | _ => false
  end.

(* ------------------------------------------------------------------ *)
(** ** Python strings and lists *)

Definition str : Type := list N.

(** An ASCII literal as a sequence of code points. *)
Definition lit (x : string) : str := map N_of_ascii (list_ascii_of_string x).

(** [l.pop()]: removes and returns the last element. *)
Fixpoint pop {A} (l : list A) : Result (A * list A) :=
  match l with
  | [] => Raise IndexError
  | x :: l' =>
      match l' with
      | [] => Ok (x, [])
      | _ :: _ => try p := pop l' in Ok (p.1, x :: p.2)
      end
  end.

(* ------------------------------------------------------------------ *)
(** ** Amounts *)

(** [x < y] on amounts. *)
Definition Qltb (x y : Q) : bool := negb (Qle_bool y x).

(** Nearest integer, ties to the even neighbour. *)
Definition round_half_even (q : Q) : Z :=
  let f := Qfloor q in
  match (q - inject_Z f ?= 1 # 2)%Q with
  | Lt => f
  | Gt => (f + 1)%Z
  | Eq => if Z.even f then f else (f + 1)%Z
  end.

(** [round(x, 2)]. *)
Definition round2 (x : Q) : Q := round_half_even (x * 100) # 100.

(* ------------------------------------------------------------------ *)
(** ** Deck and scoring *)

Definition card : Type := str.

Definition ranks : list str :=
  map lit ["A"; "2"; "3"; "4"; "5"; "6"; "7"; "8"; "9"; "10"; "J"; "Q"; "K"]%string.

(** ♠ ♥ ♦ ♣ *)
Definition spades : str := [0x2660%N].
Definition hearts : str := [0x2665%N].
Definition diamonds : str := [0x2666%N].
Definition clubs : str := [0x2663%N].

Definition suits : list str := [spades; hearts; diamonds; clubs].

(** [f"{r}{s}" for r in ranks for s in suits] *)
Definition fresh_deck : list card :=
  r ← ranks; s ← suits; [r ++ s].

(** [random.randrange(n)], from one unit of entropy. *)
Definition randbelow (n : nat) (r : nat) : nat := r mod n.

Definition swap {A} (x : list A) (i j : nat) : list A :=
  match x !! i, x !! j with
  | Some a, Some b => <[i:=b]> (<[j:=a]> x)
  | _, _ => x
  end.

(** [random.shuffle(x)]: for [i] from [len(x) - 1] down to [1], exchange
    [x[i]] with [x[j]], [j = randbelow(i + 1)]. *)
Fixpoint shuffle_from {A} (i : nat) (draws : list nat) (x : list A) : list A :=
  match i with
  | O => x
  | S i' =>
      let j := randbelow (S i) (hd O draws) in
      shuffle_from i' (tl draws) (swap x i j)
  end.

Definition shuffle {A} (draws : list nat) (x : list A) : list A :=
  shuffle_from (length x - 1) draws x.

Definition new_deck (draws : list nat) : list card := shuffle draws fresh_deck.

Definition values : gmap str Z :=
  list_to_map
    [(lit "A", 11); (lit "K", 10); (lit "Q", 10); (lit "J", 10);
     (lit "10", 10); (lit "9", 9); (lit "8", 8); (lit "7", 7); (lit "6", 6);
     (lit "5", 5); (lit "4", 4); (lit "3", 3); (lit "2", 2)]%Z.

(** [d[k]] on a dict. *)
Definition getitem {K V} `{Countable K} (d : gmap K V) (k : K) : Result V :=
  match d !! k with
  | Some v => Ok v
  | None => Raise KeyError
  end.

(** [card[:-1]] *)
Definition rank_of (c : card) : str := removelast c.

(** The [for card in hand] loop of [hand_value]. *)
Fixpoint hand_value_sum (hand : list card) (total : Z) (aces : nat)
  : Result (Z * nat) :=
  match hand with
  | [] => Ok (total, aces)
  | c :: hand' =>
      let rank := rank_of c in
      try v := getitem values rank in
      hand_value_sum hand' (total + v)%Z
        (if decide (rank = lit "A") then S aces else aces)
  end.

(** The [while total > 21 and aces] loop of [hand_value]. *)
Fixpoint hand_value_reduce (aces : nat) (total : Z) : Z :=
  match aces with
  | O => total
  | S aces' =>
      if (21 <? total)%Z then hand_value_reduce aces' (total - 10)%Z
      else total
  end.

Definition hand_value (hand : list card) : Result Z :=
  try s := hand_value_sum hand 0%Z O in
  let '(total, aces) := s in
  Ok (hand_value_reduce aces total).

(* ------------------------------------------------------------------ *)
(** ** The document store *)

Record Player : Type := mkPlayer {
  nickname : string;
  balance : Q;
  vip_level : Z;
}.

(** The [metadata] payload of a history record, one shape per game. *)
Inductive Metadata : Type :=
| RouletteMeta (bet_type : string) (value : option Z)
| SlotsMeta (reels : list string) (mult : Z)
| BlackjackMeta (player_hand dealer_hand : list card) (p_val d_val : Z).

Record BetHistory : Type := mkBetHistory {
  bh_player_id : string;
  bh_game : string;
  bh_amount : Q;
  bh_result : string;
  bh_payout : Q;
  bh_metadata : Metadata;
}.

Record BlackjackSession : Type := mkSession {
  s_player_id : string;
  s_bet : Q;
  s_deck : list card;
  s_player_hand : list card;
  s_dealer_hand : list card;
  s_status : string;
}.

(** The collections of [db], keyed by [_id]. *)
Record DB : Type := mkDB {
  player : gmap string Player;
  blackjacksession : gmap string BlackjackSession;
  bethistory : list BetHistory;
}.

(** A handler: runs on a store, returns a value or raises, and leaves a
    store behind in both cases. *)
Definition M (A : Type) : Type := DB → Result A * DB.

Definition ret {A} (a : A) : M A := λ db, (Ok a, db).
Definition raise {A} (e : exn) : M A := λ db, (Raise e, db).
Definition lift {A} (r : Result A) : M A := λ db, (r, db).

Definition bind {A B} (m : M A) (k : A → M B) : M B :=
  λ db,
    match m db with
    | (Ok a, db') => k a db'
    | (Raise e, db') => (Raise e, db')
    end.

Notation "'let!' x := m 'in' k" := (bind m (λ x, k))
  (at level 10, x name, m at level 100, k at level 200,
   format "'[v' 'let!'  x  :=  m  'in' '/' k ']'").

Definition is_hex_digit (a : ascii) : bool :=
  let n := nat_of_ascii a in
  ((48 <=? n) && (n <=? 57)) || ((65 <=? n) && (n <=? 70))
  || ((97 <=? n) && (n <=? 102)).

Definition lower_hex (a : ascii) : ascii :=
  let n := nat_of_ascii a in
  if (65 <=? n) && (n <=? 70) then ascii_of_nat (n + 32) else a.

(** [bson.ObjectId(s)] for a string: 24 hexadecimal digits, or [InvalidId].
    The identifier is kept as its lower-case digits. *)
Definition ObjectId (s : string) : Result string :=
  let cs := list_ascii_of_string s in
  if (length cs =? 24) && forallb is_hex_digit cs
  then Ok (string_of_list_ascii (map lower_hex cs))
  else Raise InvalidId.

(** [db["player"].find_one({"_id": oid})] *)
Definition find_one_player (oid : string) : M (option Player) :=
  λ db, (Ok (player db !! oid), db).

(** [db["blackjacksession"].find_one({"_id": oid})] *)
Definition find_one_session (oid : string) : M (option BlackjackSession) :=
  λ db, (Ok (blackjacksession db !! oid), db).

(** [db["player"].update_one({"_id": oid}, {"$set": {"balance": b}})] *)
Definition update_one_balance (oid : string) (b : Q) : M unit :=
  λ db,
    (Ok (),
     mkDB (alter (λ p, mkPlayer (nickname p) b (vip_level p)) oid (player db))
          (blackjacksession db) (bethistory db)).

(** [db["blackjacksession"].update_one({"_id": oid}, {"$set": ...})] *)
Definition update_one_session (oid : string)
    (f : BlackjackSession → BlackjackSession) : M unit :=
  λ db,
    (Ok (),
     mkDB (player db) (alter f oid (blackjacksession db)) (bethistory db)).

(** Modelled from the spec: [create_document] of the [database] module,
    which is not among the sources. Player store: [create(Player) -> id];
    the identifier the store allocates is the argument [new_id]. *)
Definition create_document_player (new_id : string) (p : Player) : M string :=
  λ db,
    (Ok new_id,
     mkDB (<[new_id := p]> (player db)) (blackjacksession db) (bethistory db)).

(** Modelled from the spec: [create_document] of the [database] module,
    which is not among the sources. Session store: [create(Session) -> id];
    the identifier the store allocates is the argument [new_id]. *)
Definition create_document_blackjacksession (new_id : string)
    (s : BlackjackSession) : M string :=
  λ db,
    (Ok new_id,
     mkDB (player db) (<[new_id := s]> (blackjacksession db)) (bethistory db)).

(** Modelled from the spec: [create_document] of the [database] module,
    which is not among the sources. History store: [append(BetHistory) -> id],
    write-only; the returned identifier is never used and is left out. *)
Definition create_document_bethistory (h : BetHistory) : M unit :=
  λ db, (Ok (), mkDB (player db) (blackjacksession db) (bethistory db ++ [h])).

(* ------------------------------------------------------------------ *)
(** ** Request schemas *)

Record CreatePlayer : Type := mkCreatePlayer {
  cp_nickname : string;
}.

Record RouletteBet : Type := mkRouletteBet {
  rb_player_id : string;
  rb_amount : Q;
  rb_bet_type : string;
  rb_value : option Z;
}.

Record SlotsBet : Type := mkSlotsBet {
  sb_player_id : string;
  sb_amount : Q;
}.

Record BlackjackStart : Type := mkBlackjackStart {
  bs_player_id : string;
  bs_amount : Q;
}.

Record BlackjackAction : Type := mkBlackjackAction {
  ba_session_id : string;
}.

(** [amount: float = Field(..., gt=0)];
    [value: Optional[int] = Field(None, ge=0, le=36)] *)
Definition RouletteBet_valid (bet : RouletteBet) : bool :=
  Qltb 0%Q (rb_amount bet)
  && match rb_value bet with
     | None => true
     | Some v => (0 <=? v)%Z && (v <=? 36)%Z
     end.

Definition SlotsBet_valid (bet : SlotsBet) : bool := Qltb 0%Q (sb_amount bet).

Definition BlackjackStart_valid (data : BlackjackStart) : bool :=
  Qltb 0%Q (bs_amount data).

(** A route with a request body: the body is validated against its schema
    before the handler runs. *)
Definition route {R A} (valid : R → bool) (handler : R → M A) (body : R) : M A :=
  if valid body then handler body else raise RequestValidationError.

(* ------------------------------------------------------------------ *)
(** ** Documents as the handlers return them *)

(** The values held by the documents of the store. *)
Inductive value : Type :=
| VObjectId (oid : string)
| VStr (s : string)
| VFloat (x : Q)
| VInt (n : Z).

(** [to_str_id]: a copy of [doc] in which the key [_id], when there is one,
    has given way to [id] with the value as a string; [None] and the empty
    dict are returned as they are. [str_] is Python's [str]. *)
Definition to_str_id (str_ : value → string) (doc : option (gmap string value))
  : option (gmap string value) :=
  match doc with
  | None => None
  | Some d =>
      if decide (size d = 0) then doc
      else
        match d !! "_id" with
        | Some v => Some (<["id" := VStr (str_ v)]> (delete "_id" d))
        | None => Some d
        end
  end.

(** A player record as the document [find_one] returns. *)
Definition player_doc (oid : string) (p : Player) : gmap string value :=
  {[ "_id" := VObjectId oid;
     "nickname" := VStr (nickname p);
     "balance" := VFloat (balance p);
     "vip_level" := VInt (vip_level p) ]}.

(* ------------------------------------------------------------------ *)
(** ** Player endpoints *)

Definition create_player (new_id : string) (payload : CreatePlayer)
  : M (string * Player) :=
  let player_data := mkPlayer (cp_nickname payload) 1000%Q 0%Z in
  let! player_id := create_document_player new_id player_data in
  ret (player_id, player_data).

(** [get_player]. The first query of the source, for a document whose
    [_id] is [None], reads the store and its result is overwritten; the
    second is made under [try], so that an id that is no ObjectId is a
    player not found. *)
Definition get_player (str_ : value → string) (player_id : string)
  : M (option (gmap string value)) :=
  let! found :=
    (λ db,
       (Ok (match ObjectId player_id with
            | Ok oid => player_doc oid <$> player db !! oid
            | Raise _ => None
            end), db)) in
  match found with
  | None => raise (HTTPException 404 "Player not found")
  | Some d =>
      if decide (size d = 0)
      then raise (HTTPException 404 "Player not found")
      else ret (to_str_id str_ found)
  end.

(* ------------------------------------------------------------------ *)
(** ** Roulette *)

Record RouletteResponse : Type := mkRouletteResponse {
  rr_result : Z;
  rr_color : string;
  rr_payout : Q;
  rr_balance : Q;
}.

(** [random.randint(a, b)], from one unit of entropy. *)
Definition randint (a b : Z) (r : nat) : Z := (a + Z.of_nat r mod (b - a + 1))%Z.

Definition red_numbers : gset Z :=
  list_to_set [1; 3; 5; 7; 9; 12; 14; 16; 18; 19; 21; 23; 25; 27; 30; 32; 34; 36]%Z.

(** [{0: "green", **{n: ("red" if n in {...} else "black") for n in range(1,37)}}] *)
Definition colors : gmap Z string :=
  list_to_map
    (map (λ n : Z, (n, if decide (n ∈ red_numbers) then "red" else "black"))
         (seqZ 1 36))
  ∪ {[ 0%Z := "green" ]}.

(** The [win]/[payout] branches of [bet_roulette]. *)
Definition roulette_resolve (bet : RouletteBet) (result : Z) (color : string)
  : Result (bool * Q) :=
  if decide (rb_bet_type bet = "red" ∨ rb_bet_type bet = "black") then
    if decide (color = rb_bet_type bet)
    then Ok (true, rb_amount bet)
    else Ok (false, - rb_amount bet)%Q
  else if decide (rb_bet_type bet = "number") then
    match rb_value bet with
    | None => Raise (HTTPException 400 "Value is required for number bet")
    | Some value =>
        if decide (result = value)
        then Ok (true, rb_amount bet * 35)%Q
        else Ok (false, - rb_amount bet)%Q
    end
  else Raise (HTTPException 400 "Invalid bet type").

Definition bet_roulette (rnd : nat) (bet : RouletteBet) : M RouletteResponse :=
  let! oid := lift (ObjectId (rb_player_id bet)) in
  let! found := find_one_player oid in
  match found with
  | None => raise (HTTPException 404 "Player not found")
  | Some p =>
      if Qltb (balance p) (rb_amount bet)
      then raise (HTTPException 400 "Insufficient balance")
      else
        let result := randint 0%Z 36%Z rnd in
        let! color := lift (getitem colors result) in
        let! wp := lift (roulette_resolve bet result color) in
        let payout := wp.2 in
        let new_balance := (balance p + payout)%Q in
        let! _u := update_one_balance oid (round2 new_balance) in
        let! _h := create_document_bethistory
          (mkBetHistory (rb_player_id bet) "roulette" (rb_amount bet)
             (pretty result +:+ " (" +:+ color +:+ ")")
             (round2 payout)
             (RouletteMeta (rb_bet_type bet) (rb_value bet))) in
        ret (mkRouletteResponse result color (round2 payout) (round2 new_balance))
  end.

Definition POST_bet_roulette (rnd : nat) : RouletteBet → M RouletteResponse :=
  route RouletteBet_valid (bet_roulette rnd).

(* ------------------------------------------------------------------ *)
(** ** Slots *)

Record SlotsResponse : Type := mkSlotsResponse {
  sr_reels : list string;
  sr_payout : Q;
  sr_balance : Q;
}.

Definition seven : string := "7️⃣".

Definition symbols : list string := ["🍒"; "🍋"; "🔔"; "⭐"; seven; "🍀"].

(** [l[i]] on a list, for [i >= 0]. *)
Definition index {A} (l : list A) (i : nat) : Result A :=
  match l !! i with
  | Some a => Ok a
  | None => Raise IndexError
  end.

(** [random.choice(seq)], from one unit of entropy. *)
Definition choice {A} (seq : list A) (r : nat) : Result A :=
  index seq (randbelow (length seq) r).

(** The [payout_mult] branches of [bet_slots]; [len(set(reels))] is the
    number of distinct reels. *)
Definition payout_mult (reels : list string) : Result Z :=
  let distinct := size (list_to_set reels : gset string) in
  if decide (distinct = 1) then
    try r0 := index reels 0 in
    if decide (r0 = seven) then Ok 20%Z else Ok 10%Z
  else if decide (distinct = 2) then Ok 2%Z
  else Ok 0%Z.

Definition bet_slots (rnd1 rnd2 rnd3 : nat) (bet : SlotsBet) : M SlotsResponse :=
  let! oid := lift (ObjectId (sb_player_id bet)) in
  let! found := find_one_player oid in
  match found with
  | None => raise (HTTPException 404 "Player not found")
  | Some p =>
      if Qltb (balance p) (sb_amount bet)
      then raise (HTTPException 400 "Insufficient balance")
      else
        let! reel1 := lift (choice symbols rnd1) in
        let! reel2 := lift (choice symbols rnd2) in
        let! reel3 := lift (choice symbols rnd3) in
        let reels := [reel1; reel2; reel3] in
        let! mult := lift (payout_mult reels) in
        let payout := (sb_amount bet * inject_Z mult - sb_amount bet)%Q in
        let new_balance := (balance p + payout)%Q in
        let! _u := update_one_balance oid (round2 new_balance) in
        let! _h := create_document_bethistory
          (mkBetHistory (sb_player_id bet) "slots" (sb_amount bet)
             (reel1 +:+ reel2 +:+ reel3)
             (round2 payout)
             (SlotsMeta reels mult)) in
        ret (mkSlotsResponse reels (round2 payout) (round2 new_balance))
  end.

Definition POST_bet_slots (rnd1 rnd2 rnd3 : nat) : SlotsBet → M SlotsResponse :=
  route SlotsBet_valid (bet_slots rnd1 rnd2 rnd3).

(* ------------------------------------------------------------------ *)
(** ** Blackjack *)

(** The dict [settle_blackjack] returns. *)
Record Outcome : Type := mkOutcome {
  o_player_hand : list card;
  o_dealer_hand : list card;
  o_p_val : Z;
  o_d_val : Z;
  o_result : string;
  o_payout : Q;
  o_balance : Q;
  o_status : string;
}.

(** What [blackjack_start] and [blackjack_hit] return: the table with the
    dealer's second card hidden, or a settled hand. *)
Inductive BlackjackResponse : Type :=
| Playing (session_id : string) (player_hand dealer_hand : list card)
          (status : string)
| Settled (session_id : option string) (outcome : Outcome).

(** The placeholder card 🂠. *)
Definition hidden_card : card := [0x1F0A0%N].

(** [while hand_value(dealer_hand) < 17: dealer_hand.append(deck.pop())],
    on the deck read from its top: [top_first] is the Python list reversed,
    so that [deck.pop()] takes its head. Returns the cards left (top first)
    and the dealer's hand. *)
Fixpoint dealer_loop (top_first : list card) (dealer_hand : list card)
  : Result (list card * list card) :=
  try v := hand_value dealer_hand in
  if (v <? 17)%Z then
    match top_first with
    | [] => Raise IndexError
    | c :: below => dealer_loop below (dealer_hand ++ [c])
    end
  else Ok (top_first, dealer_hand).

Definition dealer_draw (deck dealer_hand : list card)
  : Result (list card * list card) :=
  try r := dealer_loop (rev deck) dealer_hand in
  Ok (rev r.1, r.2).

(** The [payout]/[result] branches of [settle_blackjack]. *)
Definition settle_rules (p_val d_val : Z) (player_hand dealer_hand : list card)
    (bet : Q) : Q * string :=
  if (21 <? p_val)%Z then ((- bet)%Q, "player_bust")
  else if (21 <? d_val)%Z then (bet, "dealer_bust")
  else if (p_val =? 21)%Z && (length player_hand =? 2)
          && negb ((d_val =? 21)%Z && (length dealer_hand =? 2))
       then ((bet * 1.5)%Q, "player_blackjack")
  else if (d_val =? 21)%Z && (length dealer_hand =? 2)
          && negb ((p_val =? 21)%Z && (length player_hand =? 2))
       then ((- bet)%Q, "dealer_blackjack")
  else if (d_val <? p_val)%Z then (bet, "player_win")
  else if (p_val <? d_val)%Z then ((- bet)%Q, "dealer_win")
  else (0%Q, "push").

(** [player["balance"]] when [player] may be [None]. *)
Definition subscript_balance (p : option Player) : Result Q :=
  match p with
  | Some p => Ok (balance p)
  | None => Raise TypeError
  end.

Definition settle_blackjack (session_id : string) : M Outcome :=
  let! sid := lift (ObjectId session_id) in
  let! found := find_one_session sid in
  match found with
  | None => raise (HTTPException 404 "Session not found")
  | Some session =>
      let! oid := lift (ObjectId (s_player_id session)) in
      let! p := find_one_player oid in
      let bet := s_bet session in
      let player_hand := s_player_hand session in
      let! drawn := lift (dealer_draw (s_deck session) (s_dealer_hand session)) in
      let deck := drawn.1 in
      let dealer_hand := drawn.2 in
      let! p_val := lift (hand_value player_hand) in
      let! d_val := lift (hand_value dealer_hand) in
      let rules := settle_rules p_val d_val player_hand dealer_hand bet in
      let payout := rules.1 in
      let result := rules.2 in
      let! bal := lift (subscript_balance p) in
      let new_balance := (bal + payout)%Q in
      let! _u := update_one_balance oid (round2 new_balance) in
      let! _s := update_one_session sid
        (λ s, mkSession (s_player_id s) (s_bet s) deck (s_player_hand s)
                dealer_hand "finished") in
      let! _h := create_document_bethistory
        (mkBetHistory (s_player_id session) "blackjack" bet result
           (round2 payout)
           (BlackjackMeta player_hand dealer_hand p_val d_val)) in
      ret (mkOutcome player_hand dealer_hand p_val d_val result
             (round2 payout) (round2 new_balance) "finished")
  end.

Definition blackjack_start (draws : list nat) (new_id : string)
    (data : BlackjackStart) : M BlackjackResponse :=
  let! oid := lift (ObjectId (bs_player_id data)) in
  let! found := find_one_player oid in
  match found with
  | None => raise (HTTPException 404 "Player not found")
  | Some p =>
      if Qltb (balance p) (bs_amount data)
      then raise (HTTPException 400 "Insufficient balance")
      else
        let deck := new_deck draws in
        let! p1 := lift (pop deck) in
        let! p2 := lift (pop p1.2) in
        let player_hand := [p1.1; p2.1] in
        let! d1 := lift (pop p2.2) in
        let! d2 := lift (pop d1.2) in
        let dealer_hand := [d1.1; d2.1] in
        let deck := d2.2 in
        let session :=
          mkSession (bs_player_id data) (bs_amount data) deck player_hand
            dealer_hand "playing" in
        let! session_id := create_document_blackjacksession new_id session in
        let! p_val := lift (hand_value player_hand) in
        let! d_val := lift (hand_value dealer_hand) in
        if (p_val =? 21)%Z || (d_val =? 21)%Z then
          let! outcome := settle_blackjack session_id in
          ret (Settled (Some session_id) outcome)
        else
          let! d0 := lift (index dealer_hand 0) in
          ret (Playing session_id player_hand [d0; hidden_card] "playing")
  end.

Definition POST_blackjack_start (draws : list nat) (new_id : string)
  : BlackjackStart → M BlackjackResponse :=
  route BlackjackStart_valid (blackjack_start draws new_id).

Definition blackjack_hit (data : BlackjackAction) : M BlackjackResponse :=
  let! sid := lift (ObjectId (ba_session_id data)) in
  let! found := find_one_session sid in
  match found with
  | None => raise (HTTPException 404 "Session not found")
  | Some session =>
      if decide (s_status session ≠ "playing") then
        let! outcome := settle_blackjack (ba_session_id data) in
        ret (Settled None outcome)
      else
        let! popped := lift (pop (s_deck session)) in
        let deck := popped.2 in
        let player_hand := s_player_hand session ++ [popped.1] in
        let! _s := update_one_session sid
          (λ s, mkSession (s_player_id s) (s_bet s) deck player_hand
                  (s_dealer_hand s) (s_status s)) in
        let! v := lift (hand_value player_hand) in
        if (21 <? v)%Z then
          let! outcome := settle_blackjack (ba_session_id data) in
          ret (Settled None outcome)
        else
          let! d0 := lift (index (s_dealer_hand session) 0) in
          ret (Playing (ba_session_id data) player_hand [d0; hidden_card]
                 "playing")
  end.

Definition blackjack_stand (data : BlackjackAction) : M Outcome :=
  settle_blackjack (ba_session_id data).

(* ------------------------------------------------------------------ *)
(** ** The rules as the specification words them *)

(** Rank values: an ace 11, the face cards 10, a pip card its number. *)
Definition rank_value : gmap str Z :=
  list_to_map
    ((lit "A", 11%Z)
     :: map (λ face, (lit face, 10%Z)) ["J"; "Q"; "K"]
     ++ map (λ n : Z, (lit (pretty n), n)) (seqZ 2 9)).

Definition is_ace (c : card) : Prop := rank_of c = lit "A".

Definition valid_card (c : card) : Prop := is_Some (rank_value !! rank_of c).

#[global] Instance valid_card_dec (c : card) : Decision (valid_card c) :=
  is_Some_dec (rank_value !! rank_of c).

(** The ways one card can be scored: an ace as 11 or as 1, any other card
    as its rank value. *)
Definition score_choices (c : card) : list Z :=
  match rank_value !! rank_of c with
  | Some v => if decide (is_ace c) then [v; 1%Z] else [v]
  | None => []
  end.

(** [t] is a total of [hand] under some scoring of its aces. *)
Definition achievable (hand : list card) (t : Z) : Prop :=
  ∃ scores : list Z,
    Forall2 (λ c s, s ∈ score_choices c) hand scores ∧ t = foldr Z.add 0%Z scores.

Definition non_bust (hand : list card) (t : Z) : Prop :=
  achievable hand t ∧ (t ≤ 21)%Z.

Definition minimal_non_bust (hand : list card) (v : Z) : Prop :=
  non_bust hand v ∧ ∀ t, non_bust hand t → (v ≤ t)%Z.

Definition maximal_non_bust (hand : list card) (v : Z) : Prop :=
  non_bust hand v ∧ ∀ t, non_bust hand t → (t ≤ v)%Z.

(** Every ace counted as 11. *)
Definition soft_total (hand : list card) : Z :=
  foldr Z.add 0%Z (map (λ c, default 0%Z (rank_value !! rank_of c)) hand).

Definition count_aces (hand : list card) : nat :=
  length (filter is_ace hand).

(** The roulette wheel: 0 is green, the canonical red numbers are red,
    every other number is black. *)
Definition canonical_red : list Z :=
  [1; 3; 5; 7; 9; 12; 14; 16; 18; 19; 21; 23; 25; 27; 30; 32; 34; 36]%Z.

Definition color_of (n : Z) : string :=
  if decide (n = 0%Z) then "green"
  else if decide (n ∈ canonical_red) then "red"
  else "black".

(** A two-card 21. *)
Definition natural (v : Z) (hand : list card) : Prop :=
  v = 21%Z ∧ length hand = 2.

(** The settlement rules, each with the rules before it excluded. *)
Inductive settles (p_val d_val : Z) (player_hand dealer_hand : list card)
    (bet : Q) : Q → string → Prop :=
| settles_player_bust :
    (21 < p_val)%Z →
    settles p_val d_val player_hand dealer_hand bet (- bet)%Q "player_bust"
| settles_dealer_bust :
    (p_val ≤ 21)%Z → (21 < d_val)%Z →
    settles p_val d_val player_hand dealer_hand bet bet "dealer_bust"
| settles_player_blackjack :
    (p_val ≤ 21)%Z → (d_val ≤ 21)%Z →
    natural p_val player_hand → ¬ natural d_val dealer_hand →
    settles p_val d_val player_hand dealer_hand bet (bet * 1.5)%Q
      "player_blackjack"
| settles_dealer_blackjack :
    (p_val ≤ 21)%Z → (d_val ≤ 21)%Z →
    natural d_val dealer_hand → ¬ natural p_val player_hand →
    settles p_val d_val player_hand dealer_hand bet (- bet)%Q
      "dealer_blackjack"
| settles_player_win :
    (p_val ≤ 21)%Z → (d_val ≤ 21)%Z →
    (natural p_val player_hand ↔ natural d_val dealer_hand) →
    (d_val < p_val)%Z →
    settles p_val d_val player_hand dealer_hand bet bet "player_win"
| settles_dealer_win :
    (p_val ≤ 21)%Z → (d_val ≤ 21)%Z →
    (natural p_val player_hand ↔ natural d_val dealer_hand) →
    (p_val < d_val)%Z →
    settles p_val d_val player_hand dealer_hand bet (- bet)%Q "dealer_win"
| settles_push :
    (p_val ≤ 21)%Z → (d_val ≤ 21)%Z →
    (natural p_val player_hand ↔ natural d_val dealer_hand) →
    p_val = d_val →
    settles p_val d_val player_hand dealer_hand bet 0%Q "push".

(** Which results are a win, a loss or a tie for the player. *)
Definition player_wins (result : string) : Prop :=
  result ∈ ["dealer_bust"; "player_blackjack"; "player_win"].

Definition player_loses (result : string) : Prop :=
  result ∈ ["player_bust"; "dealer_blackjack"; "dealer_win"].

(* ------------------------------------------------------------------ *)
(** ** Sample stores *)

Definition alice : string := "aaaaaaaaaaaaaaaaaaaaaaaa".
Definition table : string := "bbbbbbbbbbbbbbbbbbbbbbbb".

(** Alice has signed up: 1000 chips. *)
Definition db_signup : DB :=
  (create_player alice (mkCreatePlayer "alice") (mkDB ∅ ∅ [])).2.

(** A shuffle that brings the aces, twos and threes to the top of the deck:
    the last twelve cards change places with the first twelve, every other
    card stays. Alice is dealt A♠ A♥, the dealer A♦ A♣, and 2♠ 2♥ 2♦ are
    next. *)
Definition draws_aces : list nat := seq 0 12 ++ rev (seq 1 39).

(** Alice has started a hand for [stake] chips and may hit or stand. *)
Definition db_playing (stake : Q) : DB :=
  (POST_blackjack_start draws_aces table (mkBlackjackStart alice stake)
     db_signup).2.

(** A shuffle that moves A♠ to the top of the deck and leaves K♣ K♦ K♥
    below it: Alice is dealt A♠ K♣ against the dealer's K♦ K♥, and the hand
    is settled within the start request. *)
Definition draws_natural : list nat := [0; 0; 0; 0] ++ rev (seq 1 47).

Definition db_finished : DB :=
  (POST_blackjack_start draws_natural table (mkBlackjackStart alice 100%Q)
     db_signup).2.

(** A store where Alice is down to 50 chips. *)
Definition db_poor : DB :=
  mkDB {[ alice := mkPlayer "alice" 50%Q 0%Z ]} ∅ [].

(** An identifier that is on no record. *)
Definition nobody : string := "cccccccccccccccccccccccc".

(** Alice has hit [n] times on the hand of [db_playing]: she draws
    2♠ 2♥ 2♦ 2♣ 3♠ 3♥ 3♦ and, with the eighth hit, 3♣. *)
Fixpoint db_hit (n : nat) (stake : Q) : DB :=
  match n with
  | O => db_playing stake
  | S n' => (blackjack_hit (mkBlackjackAction table) (db_hit n' stake)).2
  end.

(** An open hand whose deck has run out. *)
Definition db_empty_deck : DB :=
  mkDB (player db_signup)
    {[ table := mkSession alice 100%Q []
                  [lit "5" ++ spades; lit "6" ++ hearts]
                  [lit "K" ++ clubs; lit "7" ++ hearts] "playing" ]}
    [].

(** [str] on identifiers and strings, for the sample lookups below; numbers
    never come under [_id]. *)
Definition str_sample (v : value) : string :=
  match v with
  | VObjectId oid => oid
  | VStr s => s
  | VFloat _ | VInt _ => ""
  end.

(* ------------------------------------------------------------------ *)
(** * Properties *)

(** ** Results, amounts and lists *)

Section runtime.

Lemma rbind_Ok {A B} (m : Result A) (k : A → Result B) b :
  rbind m k = Ok b → ∃ a, m = Ok a ∧ k a = Ok b.
Proof. destruct m as [a|e]; simpl; [eauto | discriminate]. Qed.

Lemma Qltb_lt x y : Qltb x y = true ↔ (x < y)%Q.
Proof.
  unfold Qltb. rewrite negb_true_iff, <- not_true_iff_false, Qle_bool_iff.
  split; [apply Qnot_le_lt | apply Qlt_not_le].
Qed.

Lemma Qltb_ge x y : Qltb x y = false ↔ (y <= x)%Q.
Proof. unfold Qltb. rewrite negb_false_iff. apply Qle_bool_iff. Qed.

Lemma round_half_even_floor q :
  (Qfloor q ≤ round_half_even q ≤ Qfloor q + 1)%Z.
Proof.
  unfold round_half_even.
  destruct (_ ?= _)%Q; [destruct (Z.even _) | |]; lia.
Qed.


Lemma round_half_even_nonpos q : (q <= 0)%Q → (round_half_even q ≤ 0)%Z.
Proof.
  intros Hq. pose proof (round_half_even_floor q) as Hr.
  pose proof (Qfloor_le q) as Hf.
  assert (Qfloor q ≤ 0)%Z as Hz.
  { pose proof (Qfloor_resp_le _ _ Hq) as H0. exact H0. }
  destruct (decide (Qfloor q = 0%Z)) as [E|NE]; [|lia].
  unfold round_half_even. rewrite E.
  assert ((q - inject_Z 0 ?= 1 # 2)%Q = Lt) as ->; [|done].
  apply (proj1 (Qlt_alt _ _)). change (inject_Z 0) with 0%Q. lra.
Qed.

Lemma Qmake_100_sign (z : Z) :
  ((0 ≤ z)%Z → (0 <= z # 100)%Q) ∧ ((z ≤ 0)%Z → (z # 100 <= 0)%Q).
Proof. unfold Qle; simpl; lia. Qed.


Lemma round2_nonpos x : (x <= 0)%Q → (round2 x <= 0)%Q.
Proof.
  intros Hx. apply Qmake_100_sign, round_half_even_nonpos. lra.
Qed.

(** [round2] lands on a hundredth at most half a hundredth away. *)
Lemma Qmake_100_close (x : Q) (z : Z) :
  (inject_Z z - (1 # 2) <= x * 100)%Q → (x * 100 <= inject_Z z + (1 # 2))%Q →
  (x - (1 # 200) <= z # 100)%Q ∧ (z # 100 <= x + (1 # 200))%Q.
Proof.
  intros Hlo Hhi.
  assert ((z # 100) == inject_Z z * (1 # 100))%Q as ->.
  { unfold Qeq, inject_Z, Qmult; simpl. lia. }
  split; lra.
Qed.

Lemma round2_close x :
  (x - (1 # 200) <= round2 x)%Q ∧ (round2 x <= x + (1 # 200))%Q.
Proof.
  unfold round2, round_half_even.
  pose proof (Qfloor_le (x * 100)) as Hlo.
  pose proof (Qlt_floor (x * 100)) as Hhi.
  set (f := Qfloor (x * 100)) in *.
  rewrite inject_Z_plus in Hhi. change (inject_Z 1) with 1%Q in Hhi.
  destruct (_ ?= _)%Q eqn:Hc.
  - apply (proj2 (Qeq_alt _ _)) in Hc.
    destruct (Z.even f); apply Qmake_100_close; rewrite ?inject_Z_plus;
      change (inject_Z 1) with 1%Q; lra.
  - apply (proj2 (Qlt_alt _ _)) in Hc. apply Qmake_100_close; lra.
  - apply (proj2 (Qgt_alt _ _)) in Hc.
    apply Qmake_100_close; rewrite inject_Z_plus; change (inject_Z 1) with 1%Q; lra.
Qed.

Lemma pop_snoc {A} (l : list A) x : pop (l ++ [x]) = Ok (x, l).
Proof.
  induction l as [|y l IH]; [done|].
  simpl. destruct (l ++ [x]) eqn:E.
  - by destruct l.
  - rewrite IH. done.
Qed.

Lemma pop_Ok {A} (l : list A) x r : pop l = Ok (x, r) → l = r ++ [x].
Proof.
  destruct (rev l) as [|y l'] eqn:E.
  - apply (f_equal (@rev A)) in E. rewrite rev_involutive in E. by subst.
  - apply (f_equal (@rev A)) in E. rewrite rev_involutive in E. simpl in E.
    subst l. rewrite pop_snoc. congruence.
Qed.
End runtime.

(** ** Scoring a hand *)

Section scoring.
Local Open Scope Z_scope.

Lemma values_rank_value : values = rank_value.
Proof. vm_compute. reflexivity. Qed.

Lemma rank_value_range r v :
  rank_value !! r = Some v → 2 ≤ v ≤ 11 ∧ (r = lit "A" ↔ v = 11).
Proof.
  intros H. apply elem_of_list_to_map_2 in H.
  cbv in H.
  repeat (apply elem_of_cons in H as [H|H];
          [injection H as -> ->; split; [lia|split; [discriminate || done | discriminate || done]]|]).
  by apply elem_of_nil in H.
Qed.

Lemma getitem_values c :
  getitem values (rank_of c) =
    match rank_value !! rank_of c with Some v => Ok v | None => Raise KeyError end.
Proof. unfold getitem. by rewrite values_rank_value. Qed.

Lemma count_aces_cons c hand :
  count_aces (c :: hand) =
    if decide (is_ace c) then S (count_aces hand) else count_aces hand.
Proof. unfold count_aces. rewrite filter_cons. by destruct (decide _). Qed.

Lemma hand_value_sum_valid hand total aces :
  Forall valid_card hand →
  hand_value_sum hand total aces =
    Ok (total + soft_total hand, (aces + count_aces hand)%nat).
Proof.
  intros Hv. revert total aces.
  induction Hv as [|c hand [v Hc] _ IH]; intros total aces.
  - simpl. do 2 f_equal; [unfold soft_total; simpl; lia | unfold count_aces; simpl; lia].
  - simpl. rewrite getitem_values, Hc. simpl. rewrite IH, count_aces_cons.
    unfold soft_total; simpl. rewrite Hc; simpl.
    unfold is_ace. destruct (decide _); do 2 f_equal; lia.
Qed.

(** The reduction loop takes away ten per ace, as few times as needed. *)
Lemma hand_value_reduce_spec aces total :
  ∃ k : nat,
    (k ≤ aces)%nat ∧ hand_value_reduce aces total = total - 10 * Z.of_nat k
    ∧ ((k < aces)%nat → total - 10 * Z.of_nat k ≤ 21)
    ∧ ((0 < k)%nat → 21 < total - 10 * Z.of_nat k + 10).
Proof.
  revert total. induction aces as [|aces IH]; intros total.
  - exists O. simpl. repeat split; lia.
  - simpl. destruct (21 <? total) eqn:E.
    + destruct (IH (total - 10)) as (k & Hk & -> & Hlt & Hgt).
      exists (S k). apply Z.ltb_lt in E. repeat split; try lia.
    + exists O. apply Z.ltb_ge in E. repeat split; lia.
Qed.

Lemma achievable_nil t : achievable [] t ↔ t = 0.
Proof.
  unfold achievable. split.
  - intros (scores & H & ->). by apply Forall2_nil_inv_l in H as ->.
  - intros ->. exists []. by split.
Qed.

Lemma achievable_cons c hand t :
  achievable (c :: hand) t ↔
    ∃ s t', s ∈ score_choices c ∧ achievable hand t' ∧ t = s + t'.
Proof.
  unfold achievable. split.
  - intros (scores & H & ->).
    apply Forall2_cons_inv_l in H as (s & scores' & Hs & H & ->).
    exists s, (foldr Z.add 0 scores'). eauto.
  - intros (s & t' & Hs & (scores & H & ->) & ->).
    exists (s :: scores). split; [by constructor | done].
Qed.

(** The totals of a hand: the soft total less ten for each ace scored 1. *)
Lemma achievable_spec hand t :
  Forall valid_card hand →
  achievable hand t ↔
    ∃ k : nat, (k ≤ count_aces hand)%nat ∧ t = soft_total hand - 10 * Z.of_nat k.
Proof.
  intros Hv. revert t.
  induction Hv as [|c hand [v Hc] _ IH]; intros t.
  - rewrite achievable_nil. unfold count_aces, soft_total; simpl. split.
    + intros ->. exists O. lia.
    + intros (k & Hk & ->). lia.
  - rewrite achievable_cons, count_aces_cons.
    assert (soft_total (c :: hand) = v + soft_total hand) as ->.
    { unfold soft_total; simpl. by rewrite Hc. }
    unfold score_choices. rewrite Hc.
    destruct (decide (is_ace c)) as [Ha|Ha].
    + assert (v = 11) as -> by (by apply (rank_value_range _ _ Hc)).
      split.
      * intros (s & t' & Hs & Ht' & ->). apply IH in Ht' as (k & Hk & ->).
        apply elem_of_cons in Hs as [->|Hs].
        -- exists k. lia.
        -- apply list_elem_of_singleton in Hs as ->. exists (S k). lia.
      * intros (k & Hk & ->). destruct (decide (k ≤ count_aces hand)%nat).
        -- exists 11, (soft_total hand - 10 * Z.of_nat k). split; [by constructor|].
           split; [apply IH; eauto | lia].
        -- exists 1, (soft_total hand - 10 * Z.of_nat (k - 1)). split; [by do 2 constructor|].
           split; [apply IH; exists (k - 1)%nat; split; [lia|done] | lia].
    + split.
      * intros (s & t' & Hs & Ht' & ->). apply IH in Ht' as (k & Hk & ->).
        apply list_elem_of_singleton in Hs as ->. exists k. lia.
      * intros (k & Hk & ->). exists v, (soft_total hand - 10 * Z.of_nat k).
        split; [by constructor|]. split; [apply IH; eauto | lia].
Qed.

Lemma hand_value_valid hand :
  Forall valid_card hand →
  hand_value hand = Ok (hand_value_reduce (count_aces hand) (soft_total hand)).
Proof.
  intros Hv. unfold hand_value. rewrite hand_value_sum_valid by done. simpl.
  by rewrite Z.add_0_l.
Qed.

(** Every card is worth at least one point under any scoring. *)
Lemma soft_total_lower hand :
  Forall valid_card hand → Z.of_nat (length hand) + 10 * Z.of_nat (count_aces hand) ≤ soft_total hand.
Proof.
  induction 1 as [|c hand [v Hc] _ IH].
  - unfold soft_total, count_aces; simpl; lia.
  - rewrite count_aces_cons. unfold soft_total in *; simpl. rewrite Hc; simpl.
    pose proof (rank_value_range _ _ Hc) as [Hr Ha].
    unfold is_ace. destruct (decide _) as [E|E].
    + apply Ha in E. lia.
    + lia.
Qed.
End scoring.

(** ** hand_value against the totals of a hand *)

Section hand_value_claims.
Local Open Scope Z_scope.

(** C7, as amended. For a hand of valid cards, [hand_value] returns the
    soft total (faces 10, aces 11) less ten for each of [k] aces, where the
    loop stops at the first [k] that brings the total to 21 or less or uses
    up the aces. The value is a total of the hand under some scoring of its
    aces: the largest that does not bust when one exists, and the smallest
    total of all otherwise. *)
Theorem hand_value_maximal_non_bust (hand : list card) :
  Forall valid_card hand →
  ∃ (v : Z) (k : nat),
    hand_value hand = Ok v
    ∧ (k ≤ count_aces hand)%nat
    ∧ v = soft_total hand - 10 * Z.of_nat k
    ∧ ((k < count_aces hand)%nat → v ≤ 21)
    ∧ ((0 < k)%nat → 21 < v + 10)
    ∧ achievable hand v
    ∧ ((∃ t, non_bust hand t) → maximal_non_bust hand v)
    ∧ ((¬ ∃ t, non_bust hand t) → ∀ t, achievable hand t → v ≤ t).
Proof.
  intros Hv.
  destruct (hand_value_reduce_spec (count_aces hand) (soft_total hand))
    as (k & Hk & Hred & Hstop & Hneed).
  exists (soft_total hand - 10 * Z.of_nat k), k.
  assert (achievable hand (soft_total hand - 10 * Z.of_nat k)) as Hach.
  { apply achievable_spec; eauto. }
  split; [by rewrite hand_value_valid, Hred|].
  do 5 (split; [done|]). split.
  - intros (t & Ht & Hle).
    apply achievable_spec in Ht as (j & Hj & ->); [|done].
    split; [split; [done|lia]|].
    intros t' [Ht' Hle']. apply achievable_spec in Ht' as (j' & Hj' & ->); [|done].
    lia.
  - intros Hnone t Ht. apply achievable_spec in Ht as (j & Hj & ->); [|done].
    destruct (decide (k < count_aces hand)%nat) as [Hlt|Hge]; [|lia].
    exfalso. apply Hnone. eexists. split; [exact Hach | auto].
Qed.

Lemma hand_value_maximal_non_bust_witness :
  ∃ (v : Z) (k : nat),
    let hand := [lit "A" ++ spades; lit "A" ++ hearts; lit "9" ++ hearts] in
    hand_value hand = Ok v
    ∧ (k ≤ count_aces hand)%nat
    ∧ v = soft_total hand - 10 * Z.of_nat k
    ∧ ((k < count_aces hand)%nat → v ≤ 21)
    ∧ ((0 < k)%nat → 21 < v + 10)
    ∧ achievable hand v
    ∧ ((∃ t, non_bust hand t) → maximal_non_bust hand v)
    ∧ ((¬ ∃ t, non_bust hand t) → ∀ t, achievable hand t → v ≤ t).
Proof.
  apply (hand_value_maximal_non_bust
           [lit "A" ++ spades; lit "A" ++ hearts; lit "9" ++ hearts]).
  repeat constructor; eexists; vm_compute; reflexivity.
Defined.

(** C7, as stated, fails: an ace and a five score 16, although 6 is a
    smaller total of the same hand that does not bust. *)
Lemma hand_value_not_minimal_non_bust :
  let hand := [lit "A" ++ spades; lit "5" ++ hearts] in
  hand_value hand = Ok 16
  ∧ non_bust hand 6
  ∧ ¬ minimal_non_bust hand 16.
Proof.
  assert (non_bust [lit "A" ++ spades; lit "5" ++ hearts] 6) as H6.
  { split; [|lia]. exists [1; 5]. split; [|done].
    repeat constructor. }
  split; [by vm_compute|]. split; [done|].
  intros [_ Hmin]. specialize (Hmin 6 H6). lia.
Qed.

Example hand_value_two_aces_nine :
  hand_value [lit "A" ++ spades; lit "A" ++ hearts; lit "9" ++ hearts] = Ok 21.
Proof. reflexivity. Qed.
End hand_value_claims.

(** ** The dealer loop *)

Section dealer.
Local Open Scope Z_scope.

Lemma dealer_loop_unfold top_first dealer_hand :
  dealer_loop top_first dealer_hand =
    try v := hand_value dealer_hand in
    if v <? 17 then
      match top_first with
      | [] => Raise IndexError
      | c :: below => dealer_loop below (dealer_hand ++ [c])
      end
    else Ok (top_first, dealer_hand).
Proof. by destruct top_first. Qed.

(** What a completed dealer loop has done. *)
Lemma dealer_loop_Ok top_first hand rest hand' :
  dealer_loop top_first hand = Ok (rest, hand') →
  ∃ drawn d_val,
    top_first = drawn ++ rest ∧ hand' = hand ++ drawn
    ∧ hand_value hand' = Ok d_val ∧ 17 ≤ d_val
    ∧ ∀ k, (k < length drawn)%nat →
        ∃ v, hand_value (hand ++ take k drawn) = Ok v ∧ v < 17.
Proof.
  revert hand. induction top_first as [|c below IH]; intros hand;
    rewrite dealer_loop_unfold; intros H;
    apply rbind_Ok in H as (v & Hv & H); destruct (v <? 17) eqn:E;
    try discriminate.
  - injection H as <- <-. exists [], v. apply Z.ltb_ge in E.
    split_and!; rewrite ?app_nil_r; try done.
    intros k Hk. simpl in Hk. lia.
  - apply IH in H as (drawn & d_val & -> & -> & Hd & Hge & Hbelow).
    exists (c :: drawn), d_val. split_and!; try done.
    { by rewrite <- app_assoc. }
    intros [|k] Hk.
    + exists v. rewrite take_0, app_nil_r. apply Z.ltb_lt in E. done.
    + simpl in Hk. destruct (Hbelow k) as (w & Hw & Hlt); [lia|].
      exists w. rewrite <- app_assoc in Hw. done.
  - injection H as <- <-. exists [], v. apply Z.ltb_ge in E.
    split_and!; rewrite ?app_nil_r; try done.
    intros k Hk. simpl in Hk. lia.
Qed.

Lemma hand_value_ge_length hand v :
  Forall valid_card hand → hand_value hand = Ok v → Z.of_nat (length hand) ≤ v.
Proof.
  intros Hv. rewrite hand_value_valid by done. intros [= <-].
  destruct (hand_value_reduce_spec (count_aces hand) (soft_total hand))
    as (k & Hk & -> & _).
  pose proof (soft_total_lower hand Hv). lia.
Qed.

(** With seventeen cards between the deck and the hand the loop completes. *)
Lemma dealer_loop_total top_first hand :
  Forall valid_card top_first → Forall valid_card hand →
  (17 ≤ length top_first + length hand)%nat →
  ∃ rest hand', dealer_loop top_first hand = Ok (rest, hand').
Proof.
  intros Ht. revert hand. induction Ht as [|c below Hc Ht IH]; intros hand Hh Hlen;
    rewrite dealer_loop_unfold, (hand_value_valid hand Hh); simpl;
    destruct (_ <? 17) eqn:E; eauto.
  - apply Z.ltb_lt in E.
    pose proof (hand_value_ge_length hand _ Hh (hand_value_valid hand Hh)).
    simpl in Hlen. lia.
  - apply IH.
    + apply Forall_app; split; [done | by constructor].
    + rewrite length_app. simpl in *. lia.
Qed.

Lemma dealer_draw_Ok deck hand rest hand' :
  dealer_draw deck hand = Ok (rest, hand') →
  ∃ drawn d_val,
    deck = rest ++ rev drawn ∧ hand' = hand ++ drawn
    ∧ hand_value hand' = Ok d_val ∧ 17 ≤ d_val
    ∧ ∀ k, (k < length drawn)%nat →
        ∃ v, hand_value (hand ++ take k drawn) = Ok v ∧ v < 17.
Proof.
  unfold dealer_draw. intros H. apply rbind_Ok in H as ([top hd'] & Hl & [= <- <-]).
  apply dealer_loop_Ok in Hl as (drawn & d_val & Htop & -> & Hrest).
  exists drawn, d_val. split; [|done]. simpl.
  rewrite <- (rev_involutive deck), Htop, rev_app_distr. done.
Qed.

Lemma dealer_draw_total deck hand :
  Forall valid_card deck → Forall valid_card hand →
  (17 ≤ length deck + length hand)%nat →
  ∃ rest hand', dealer_draw deck hand = Ok (rest, hand').
Proof.
  intros Hd Hh Hlen. unfold dealer_draw.
  destruct (dealer_loop_total (rev deck) hand) as (rest & hand' & ->); try done.
  - by apply Forall_rev.
  - by rewrite length_rev.
  - simpl. eauto.
Qed.

(** A hand that already stands at 17 or more is left as it is. *)
Lemma dealer_draw_stands deck hand v :
  hand_value hand = Ok v → 17 ≤ v → dealer_draw deck hand = Ok (deck, hand).
Proof.
  intros Hv Hge. unfold dealer_draw. rewrite dealer_loop_unfold, Hv. simpl.
  apply Z.ltb_ge in Hge. rewrite Hge. simpl. by rewrite rev_involutive.
Qed.
End dealer.

Section raises.
Local Open Scope Z_scope.

(** Scoring raises nothing but the [KeyError] of an unknown rank. *)
Lemma hand_value_Raise hand e : hand_value hand = Raise e → e = KeyError.
Proof.
  unfold hand_value.
  enough (∀ total aces, hand_value_sum hand total aces = Raise e → e = KeyError) as H.
  { destruct (hand_value_sum hand 0 0) as [[total aces]|e'] eqn:E; simpl;
      [done | intros [= ->]; eauto]. }
  induction hand as [|c hand IH]; intros total aces; simpl; [done|].
  unfold getitem. destruct (values !! rank_of c); simpl; [apply IH | congruence].
Qed.

(** The dealer loop raises that or the [IndexError] of an empty deck. *)
Lemma dealer_draw_Raise deck hand e :
  dealer_draw deck hand = Raise e → e = KeyError ∨ e = IndexError.
Proof.
  unfold dealer_draw.
  enough (∀ top, dealer_loop top hand = Raise e → e = KeyError ∨ e = IndexError) as H.
  { destruct (dealer_loop (rev deck) hand) eqn:E; simpl; [done|].
    intros [= ->]. eauto. }
  intros top. revert hand. induction top as [|c below IH]; intros hand;
    rewrite dealer_loop_unfold;
    destruct (hand_value hand) as [v|e'] eqn:Hv; simpl.
  - destruct (v <? 17); [intros [= <-]; by right | done].
  - intros [= ->]. left. by apply hand_value_Raise in Hv.
  - destruct (v <? 17); [apply IH | done].
  - intros [= ->]. left. by apply hand_value_Raise in Hv.
Qed.
End raises.

(** ** A new deck *)

Section new_deck.

Lemma swap_length {A} (x : list A) i j : length (swap x i j) = length x.
Proof.
  unfold swap. destruct (x !! i), (x !! j); try done.
  by rewrite !length_insert.
Qed.

Lemma swap_Forall {A} (P : A → Prop) (x : list A) i j :
  Forall P x → Forall P (swap x i j).
Proof.
  intros H. unfold swap.
  destruct (x !! i) as [a|] eqn:Hi; [|done].
  destruct (x !! j) as [b|] eqn:Hj; [|done].
  apply Forall_insert; [apply Forall_insert; [done|] |].
  - by apply (Forall_lookup_1 P x i).
  - by apply (Forall_lookup_1 P x j).
Qed.

Lemma shuffle_from_length {A} i draws (x : list A) :
  length (shuffle_from i draws x) = length x.
Proof.
  revert draws x. induction i as [|i IH]; intros draws x; simpl; [done|].
  by rewrite IH, swap_length.
Qed.

Lemma shuffle_from_Forall {A} (P : A → Prop) i draws (x : list A) :
  Forall P x → Forall P (shuffle_from i draws x).
Proof.
  revert draws x. induction i as [|i IH]; intros draws x H; simpl; [done|].
  by apply IH, swap_Forall.
Qed.

(** However it is shuffled, a new deck has 52 cards that all score. *)
Lemma new_deck_length draws : length (new_deck draws) = 52%nat.
Proof. unfold new_deck, shuffle. by rewrite shuffle_from_length. Qed.

Lemma new_deck_valid draws : Forall valid_card (new_deck draws).
Proof.
  unfold new_deck, shuffle. apply shuffle_from_Forall.
  apply (bool_decide_unpack _). vm_compute. exact I.
Qed.

Lemma fresh_deck_NoDup : NoDup fresh_deck.
Proof. apply (bool_decide_unpack _). vm_compute. exact I. Qed.

Lemma swap_Permutation {A} (x : list A) i j : swap x i j ≡ₚ x.
Proof.
  unfold swap.
  destruct (x !! i) as [a|] eqn:Hi; [|done].
  destruct (x !! j) as [b|] eqn:Hj; [|done].
  pose proof (lookup_lt_Some _ _ _ Hi) as Hli.
  pose proof (lookup_lt_Some _ _ _ Hj) as Hlj.
  apply Permutation_inj. split; [by rewrite !length_insert|].
  exists (λ n, if decide (n = i) then j else if decide (n = j) then i else n).
  split.
  - intros n m. repeat case_decide; intros; subst; congruence.
  - intros n. rewrite !list_lookup_insert, !length_insert.
    repeat case_decide; subst; try done; try tauto; try lia.
Qed.

Lemma shuffle_from_Permutation {A} i draws (x : list A) :
  shuffle_from i draws x ≡ₚ x.
Proof.
  revert draws x. induction i as [|i IH]; intros draws x; simpl; [done|].
  by rewrite IH, swap_Permutation.
Qed.

(** A new deck is the 52 rank and suit combinations in some order. *)
Lemma new_deck_Permutation draws : new_deck draws ≡ₚ fresh_deck.
Proof. apply shuffle_from_Permutation. Qed.

Lemma new_deck_NoDup draws : NoDup (new_deck draws).
Proof. rewrite new_deck_Permutation. apply fresh_deck_NoDup. Qed.
End new_deck.

(** ** The sample stores *)

Example db_playing_table :
  ∃ s,
    blackjacksession (db_playing 100) !! table = Some s
    ∧ s_player_id s = alice
    ∧ (s_bet s == 100)%Q
    ∧ s_player_hand s = [lit "A" ++ spades; lit "A" ++ hearts]
    ∧ s_dealer_hand s = [lit "A" ++ diamonds; lit "A" ++ clubs]
    ∧ length (s_deck s) = 48%nat
    ∧ skipn 45 (s_deck s)
      = [lit "2" ++ diamonds; lit "2" ++ hearts; lit "2" ++ spades]
    ∧ s_status s = "playing"
    ∧ (balance <$> player (db_playing 100) !! alice) = Some 1000%Q
    ∧ bethistory (db_playing 100) = [].
Proof. eexists. split; [vm_compute; reflexivity|]. vm_compute. tauto. Qed.

Example db_finished_table :
  ∃ s p,
    blackjacksession db_finished !! table = Some s
    ∧ s_player_hand s = [lit "A" ++ spades; lit "K" ++ clubs]
    ∧ s_dealer_hand s = [lit "K" ++ diamonds; lit "K" ++ hearts]
    ∧ length (s_deck s) = 48%nat
    ∧ s_status s = "finished"
    ∧ player db_finished !! alice = Some p
    ∧ (balance p == 1150)%Q
    ∧ length (bethistory db_finished) = 1%nat.
Proof.
  eexists _, _. split; [vm_compute; reflexivity|].
  do 4 (split; [vm_compute; reflexivity|]).
  split; [vm_compute; reflexivity|]. split; vm_compute; reflexivity.
Qed.

(** ** Settlement of a blackjack hand *)

Local Open Scope Z_scope.
#[local] Set Warnings "-clear-no-such-hyp".

#[local] Arguments settle_rules : simpl never.
#[local] Arguments round2 : simpl never.
#[local] Arguments hand_value : simpl never.
#[local] Arguments dealer_draw : simpl never.
#[local] Arguments ObjectId : simpl never.
#[local] Arguments roulette_resolve : simpl never.
#[local] Arguments payout_mult : simpl never.
#[local] Arguments colors : simpl never.
#[local] Arguments Qltb : simpl never.

Ltac unfold_handler :=
  unfold bind, lift, raise, ret, find_one_session, find_one_player,
    update_one_balance, update_one_session, create_document_bethistory,
    create_document_blackjacksession, create_document_player,
    subscript_balance in *.

(** A settlement that completes: what was read, what is returned and what
    is written. *)
Lemma settle_blackjack_Ok session_id db o db' :
  settle_blackjack session_id db = (Ok o, db') →
  ∃ sid session oid p deck' dealer_hand' p_val d_val,
    ObjectId session_id = Ok sid
    ∧ blackjacksession db !! sid = Some session
    ∧ ObjectId (s_player_id session) = Ok oid
    ∧ player db !! oid = Some p
    ∧ dealer_draw (s_deck session) (s_dealer_hand session) = Ok (deck', dealer_hand')
    ∧ hand_value (s_player_hand session) = Ok p_val
    ∧ hand_value dealer_hand' = Ok d_val
    ∧ let rules :=
        settle_rules p_val d_val (s_player_hand session) dealer_hand' (s_bet session) in
      let new_balance := round2 (balance p + rules.1) in
      o = mkOutcome (s_player_hand session) dealer_hand' p_val d_val rules.2
            (round2 rules.1) new_balance "finished"
      ∧ db' =
          mkDB
            (alter (λ p, mkPlayer (nickname p) new_balance (vip_level p)) oid
               (player db))
            (alter (λ s, mkSession (s_player_id s) (s_bet s) deck'
                           (s_player_hand s) dealer_hand' "finished") sid
               (blackjacksession db))
            (bethistory db
             ++ [mkBetHistory (s_player_id session) "blackjack" (s_bet session)
                   rules.2 (round2 rules.1)
                   (BlackjackMeta (s_player_hand session) dealer_hand' p_val d_val)]).
Proof.
  unfold settle_blackjack. unfold_handler. intros H.
  destruct (ObjectId session_id) as [sid|] eqn:Hsid; [|done].
  destruct (blackjacksession db !! sid) as [session|] eqn:Hs; [|done].
  destruct (ObjectId (s_player_id session)) as [oid|] eqn:Hoid; [|done].
  destruct (dealer_draw _ _) as [[deck' dealer_hand']|] eqn:Hd; [|done].
  simpl in H.
  destruct (hand_value (s_player_hand session)) as [p_val|] eqn:Hp; [|done].
  destruct (hand_value dealer_hand') as [d_val|] eqn:Hdv; [|done].
  destruct (player db !! oid) as [p|] eqn:Hpl; [|done].
  injection H as <- <-.
  by exists sid, session, oid, p, deck', dealer_hand', p_val, d_val.
Qed.

Lemma settle_blackjack_run session_id db sid session oid p deck' dealer_hand'
    p_val d_val :
  ObjectId session_id = Ok sid →
  blackjacksession db !! sid = Some session →
  ObjectId (s_player_id session) = Ok oid →
  player db !! oid = Some p →
  dealer_draw (s_deck session) (s_dealer_hand session) = Ok (deck', dealer_hand') →
  hand_value (s_player_hand session) = Ok p_val →
  hand_value dealer_hand' = Ok d_val →
  let rules :=
    settle_rules p_val d_val (s_player_hand session) dealer_hand' (s_bet session) in
  let new_balance := round2 (balance p + rules.1) in
  settle_blackjack session_id db =
    (Ok (mkOutcome (s_player_hand session) dealer_hand' p_val d_val rules.2
           (round2 rules.1) new_balance "finished"),
     mkDB
       (alter (λ p, mkPlayer (nickname p) new_balance (vip_level p)) oid
          (player db))
       (alter (λ s, mkSession (s_player_id s) (s_bet s) deck'
                      (s_player_hand s) dealer_hand' "finished") sid
          (blackjacksession db))
       (bethistory db
        ++ [mkBetHistory (s_player_id session) "blackjack" (s_bet session)
              rules.2 (round2 rules.1)
              (BlackjackMeta (s_player_hand session) dealer_hand' p_val d_val)])).
Proof.
  intros Hsid Hs Hoid Hp Hd Hpv Hdv. unfold settle_blackjack. unfold_handler.
  rewrite Hsid, Hs, Hoid, Hd. simpl. by rewrite Hpv, Hdv, Hp.
Qed.

(** A raised exception leaves the store as [settle_blackjack] found it:
    every write comes after the last statement that can raise. *)
Lemma settle_blackjack_Raise session_id db e db' :
  settle_blackjack session_id db = (Raise e, db') → db' = db.
Proof.
  unfold settle_blackjack. unfold_handler. intros H.
  repeat (case_match; simplify_eq/=); done.
Qed.

(** ** The settlement rules *)

Lemma natural_bool v (hand : list card) :
  (v =? 21) && (length hand =? 2)%nat = true ↔ natural v hand.
Proof.
  unfold natural. rewrite andb_true_iff, Z.eqb_eq, Nat.eqb_eq. done.
Qed.

Lemma settle_rules_settles p_val d_val player_hand dealer_hand bet :
  settles p_val d_val player_hand dealer_hand bet
    (settle_rules p_val d_val player_hand dealer_hand bet).1
    (settle_rules p_val d_val player_hand dealer_hand bet).2.
Proof.
  unfold settle_rules.
  destruct (21 <? p_val) eqn:Hp; [apply Z.ltb_lt in Hp; by constructor|].
  apply Z.ltb_ge in Hp.
  destruct (21 <? d_val) eqn:Hd; [apply Z.ltb_lt in Hd; by constructor|].
  apply Z.ltb_ge in Hd.
  pose proof (natural_bool p_val player_hand) as Hnp.
  pose proof (natural_bool d_val dealer_hand) as Hnd.
  destruct ((p_val =? 21) && (length player_hand =? 2)%nat) eqn:Np;
    destruct ((d_val =? 21) && (length dealer_hand =? 2)%nat) eqn:Nd; simpl.
  - assert (d_val = p_val) as ->.
    { destruct Hnp as [Hnp _], Hnd as [Hnd _].
      destruct (Hnp eq_refl), (Hnd eq_refl). congruence. }
    rewrite Z.ltb_irrefl. constructor; try done. tauto.
  - constructor; try done; [tauto|]. intros H. apply Hnd in H. done.
  - constructor; try done; [tauto|]. intros H. apply Hnp in H. done.
  - assert (natural p_val player_hand ↔ natural d_val dealer_hand) as Hiff.
    { rewrite <- Hnp, <- Hnd. done. }
    destruct (d_val <? p_val) eqn:H1; [apply Z.ltb_lt in H1; by constructor|].
    destruct (p_val <? d_val) eqn:H2; [apply Z.ltb_lt in H2; by constructor|].
    apply Z.ltb_ge in H1, H2. constructor; try done. lia.
Qed.

Lemma settles_settle_rules p_val d_val player_hand dealer_hand bet payout result :
  settles p_val d_val player_hand dealer_hand bet payout result →
  settle_rules p_val d_val player_hand dealer_hand bet = (payout, result).
Proof.
  pose proof (natural_bool p_val player_hand) as Hnp.
  pose proof (natural_bool d_val dealer_hand) as Hnd.
  unfold settle_rules.
  destruct 1 as [Hp|Hp Hd|Hp Hd Np Nd|Hp Hd Nd Np|Hp Hd N Hlt|Hp Hd N Hlt|Hp Hd N Heq].
  - apply Z.ltb_lt in Hp. by rewrite Hp.
  - apply Z.ltb_ge in Hp. apply Z.ltb_lt in Hd. by rewrite Hp, Hd.
  - apply Z.ltb_ge in Hp, Hd. rewrite Hp, Hd.
    apply Hnp in Np. rewrite <- Hnd in Nd. apply not_true_is_false in Nd.
    by rewrite Np, Nd.
  - apply Z.ltb_ge in Hp, Hd. rewrite Hp, Hd.
    apply Hnd in Nd. rewrite <- Hnp in Np. apply not_true_is_false in Np.
    by rewrite Np, Nd.
  - apply Z.ltb_ge in Hp, Hd. rewrite Hp, Hd. apply Z.ltb_lt in Hlt.
    rewrite <- Hnp, <- Hnd in N.
    destruct (_ && _), (_ && _); simpl; rewrite ?Hlt; try done;
      destruct N as [N1 N2]; try specialize (N1 eq_refl);
      try specialize (N2 eq_refl); done.
  - apply Z.ltb_ge in Hp, Hd. rewrite Hp, Hd.
    assert ((d_val <? p_val) = false) as -> by (apply Z.ltb_ge; lia).
    apply Z.ltb_lt in Hlt. rewrite <- Hnp, <- Hnd in N.
    destruct (_ && _), (_ && _); simpl; rewrite ?Hlt; try done;
      destruct N as [N1 N2]; try specialize (N1 eq_refl);
      try specialize (N2 eq_refl); done.
  - apply Z.ltb_ge in Hp, Hd. rewrite Hp, Hd. subst d_val.
    rewrite Z.ltb_irrefl. rewrite <- Hnp, <- Hnd in N.
    destruct (_ && _), (_ && _); simpl; try done;
      destruct N as [N1 N2]; try specialize (N1 eq_refl);
      try specialize (N2 eq_refl); done.
Qed.

(** C3. A settlement that completes has scored the player's hand as it
    is on record and the dealer's hand as it stands after the dealer's
    draw from the session deck, and reports those hands and totals with
    the one result and payout that the rules give in their order of
    precedence: player bust, dealer bust, player blackjack, dealer
    blackjack, then the higher total, a push on equal totals. The payout
    is the stake, minus the stake, one and a half times the stake or zero;
    it is reported rounded to two places, added to the balance of the
    session's player and written with the result to the history. *)
Theorem settle_blackjack_precedence session_id db o db' :
  settle_blackjack session_id db = (Ok o, db') →
  ∃ sid session oid p deck' payout h,
    ObjectId session_id = Ok sid
    ∧ blackjacksession db !! sid = Some session
    ∧ o_player_hand o = s_player_hand session
    ∧ dealer_draw (s_deck session) (s_dealer_hand session)
      = Ok (deck', o_dealer_hand o)
    ∧ hand_value (s_player_hand session) = Ok (o_p_val o)
    ∧ hand_value (o_dealer_hand o) = Ok (o_d_val o)
    ∧ settles (o_p_val o) (o_d_val o) (s_player_hand session)
        (o_dealer_hand o) (s_bet session) payout (o_result o)
    ∧ (∀ payout' result',
         settles (o_p_val o) (o_d_val o) (s_player_hand session)
           (o_dealer_hand o) (s_bet session) payout' result' →
         payout' = payout ∧ result' = o_result o)
    ∧ o_payout o = round2 payout
    ∧ ObjectId (s_player_id session) = Ok oid
    ∧ player db !! oid = Some p
    ∧ o_balance o = round2 (balance p + payout)
    ∧ balance <$> player db' !! oid = Some (o_balance o)
    ∧ bethistory db' = bethistory db ++ [h]
    ∧ bh_result h = o_result o
    ∧ bh_payout h = round2 payout
    ∧ bh_amount h = s_bet session.
Proof.
  intros H. apply settle_blackjack_Ok in H
    as (sid & session & oid & p & deck' & dealer_hand' & p_val & d_val
        & Hsid & Hs & Hoid & Hp & Hd & Hpv & Hdv & -> & ->).
  eexists sid, session, oid, p, deck',
    (settle_rules p_val d_val (s_player_hand session) dealer_hand'
       (s_bet session)).1, _.
  simpl. do 6 (split; [done|]).
  split; [apply settle_rules_settles|].
  split.
  { intros payout' result' H. apply settles_settle_rules in H.
    by rewrite H. }
  do 4 (split; [done|]).
  split; [by rewrite lookup_alter_eq, Hp|].
  by split_and!.
Qed.

Lemma settle_blackjack_precedence_witness :
  ∃ o db',
    settle_blackjack table (db_playing 100) = (Ok o, db')
    ∧ ∃ sid session oid p deck' payout h,
        ObjectId table = Ok sid
        ∧ blackjacksession (db_playing 100) !! sid = Some session
        ∧ o_player_hand o = s_player_hand session
        ∧ dealer_draw (s_deck session) (s_dealer_hand session)
          = Ok (deck', o_dealer_hand o)
        ∧ hand_value (s_player_hand session) = Ok (o_p_val o)
        ∧ hand_value (o_dealer_hand o) = Ok (o_d_val o)
        ∧ settles (o_p_val o) (o_d_val o) (s_player_hand session)
            (o_dealer_hand o) (s_bet session) payout (o_result o)
        ∧ (∀ payout' result',
             settles (o_p_val o) (o_d_val o) (s_player_hand session)
               (o_dealer_hand o) (s_bet session) payout' result' →
             payout' = payout ∧ result' = o_result o)
        ∧ o_payout o = round2 payout
        ∧ ObjectId (s_player_id session) = Ok oid
        ∧ player (db_playing 100) !! oid = Some p
        ∧ o_balance o = round2 (balance p + payout)
        ∧ balance <$> player db' !! oid = Some (o_balance o)
        ∧ bethistory db' = bethistory (db_playing 100) ++ [h]
        ∧ bh_result h = o_result o
        ∧ bh_payout h = round2 payout
        ∧ bh_amount h = s_bet session.
Proof.
  eexists _, _. split; [vm_compute; reflexivity|].
  apply (settle_blackjack_precedence table (db_playing 100)).
  vm_compute; reflexivity.
Defined.

(** The sample hand: Alice's twelve against a dealer who draws to
    eighteen. *)
Example settle_blackjack_reports_the_hands :
  ∃ o db',
    settle_blackjack table (db_playing 100) = (Ok o, db')
    ∧ o_player_hand o = [lit "A" ++ spades; lit "A" ++ hearts]
    ∧ o_p_val o = 12
    ∧ o_dealer_hand o
      = [lit "A" ++ diamonds; lit "A" ++ clubs; lit "2" ++ spades;
         lit "2" ++ hearts; lit "2" ++ diamonds]
    ∧ o_d_val o = 18
    ∧ o_result o = "dealer_win"
    ∧ o_payout o = round2 (- 100).
Proof.
  eexists _, _. split; [vm_compute; reflexivity|].
  do 5 (split; [vm_compute; reflexivity|]). vm_compute; reflexivity.
Qed.

Example settle_rules_precedence_examples :
  settle_rules 22 25 [] [] 100 = ((- 100)%Q, "player_bust")
  ∧ settle_rules 20 25 [] [] 100 = (100%Q, "dealer_bust")
  ∧ settle_rules 21 21 [lit "A" ++ spades; lit "K" ++ clubs]
      [lit "7" ++ spades; lit "7" ++ clubs; lit "7" ++ hearts] 100
    = ((100 * 1.5)%Q, "player_blackjack")
  ∧ settle_rules 21 21 [lit "A" ++ spades; lit "K" ++ clubs]
      [lit "A" ++ hearts; lit "K" ++ hearts] 100
    = (0%Q, "push").
Proof. split_and!; reflexivity. Qed.

(** ** Claims on settlement *)

(** C8. When a session and its player are on record, the cards are valid
    and seventeen cards are at hand, settlement completes: the dealer has
    taken cards off the top of the session deck, one at a time, while the
    hand was worth less than 17. The hand is worth 17 or more at the end,
    and was worth less than 17 before each card drawn, so no card is drawn
    once 17 is reached; a soft 17 stands like any other. *)
Theorem dealer_draws_until_17 session_id db sid session oid p :
  ObjectId session_id = Ok sid →
  blackjacksession db !! sid = Some session →
  ObjectId (s_player_id session) = Ok oid →
  player db !! oid = Some p →
  Forall valid_card (s_deck session) →
  Forall valid_card (s_dealer_hand session) →
  Forall valid_card (s_player_hand session) →
  (17 ≤ length (s_deck session) + length (s_dealer_hand session))%nat →
  ∃ o db' drawn rest,
    settle_blackjack session_id db = (Ok o, db')
    ∧ s_deck session = rest ++ rev drawn
    ∧ o_dealer_hand o = s_dealer_hand session ++ drawn
    ∧ blackjacksession db' !! sid =
        Some (mkSession (s_player_id session) (s_bet session) rest
                (s_player_hand session) (s_dealer_hand session ++ drawn)
                "finished")
    ∧ hand_value (o_dealer_hand o) = Ok (o_d_val o)
    ∧ 17 ≤ o_d_val o
    ∧ ∀ k, (k < length drawn)%nat →
        ∃ v, hand_value (s_dealer_hand session ++ take k drawn) = Ok v ∧ v < 17.
Proof.
  intros Hsid Hs Hoid Hp Hdeck Hdealer Hplayer Hlen.
  destruct (dealer_draw_total _ _ Hdeck Hdealer Hlen) as (rest & hand' & Hd).
  destruct (dealer_draw_Ok _ _ _ _ Hd) as (drawn & d_val & Hrest & -> & Hdv & Hge & Hlt).
  pose proof (hand_value_valid _ Hplayer) as Hpv.
  eexists _, _, drawn, rest.
  split; [by apply (settle_blackjack_run _ _ _ _ _ _ _ _ _ _ Hsid Hs Hoid Hp Hd Hpv Hdv)|].
  simpl. split_and!; try done.
  rewrite lookup_alter_eq, Hs. done.
Qed.

Lemma dealer_draws_until_17_witness :
  ∃ session,
    blackjacksession (db_playing 100) !! table = Some session
    ∧ ∃ o db' drawn rest,
        settle_blackjack table (db_playing 100) = (Ok o, db')
        ∧ s_deck session = rest ++ rev drawn
        ∧ o_dealer_hand o = s_dealer_hand session ++ drawn
        ∧ blackjacksession db' !! table =
            Some (mkSession (s_player_id session) (s_bet session) rest
                    (s_player_hand session) (s_dealer_hand session ++ drawn)
                    "finished")
        ∧ hand_value (o_dealer_hand o) = Ok (o_d_val o)
        ∧ 17 ≤ o_d_val o
        ∧ ∀ k, (k < length drawn)%nat →
            ∃ v, hand_value (s_dealer_hand session ++ take k drawn) = Ok v ∧ v < 17.
Proof.
  eexists. split; [vm_compute; reflexivity|].
  eapply (dealer_draws_until_17 table (db_playing 100) table _ alice).
  - vm_compute; reflexivity.
  - vm_compute; reflexivity.
  - vm_compute; reflexivity.
  - vm_compute; reflexivity.
  - apply (bool_decide_unpack _). vm_compute. exact I.
  - apply (bool_decide_unpack _). vm_compute. exact I.
  - apply (bool_decide_unpack _). vm_compute. exact I.
  - vm_compute. lia.
Defined.

Example dealer_draws_three_cards :
  ∃ o db', settle_blackjack table (db_playing 100) = (Ok o, db')
    ∧ o_dealer_hand o =
        [lit "A" ++ diamonds; lit "A" ++ clubs; lit "2" ++ spades;
         lit "2" ++ hearts; lit "2" ++ diamonds]
    ∧ o_d_val o = 18 ∧ o_result o = "dealer_win".
Proof. eexists _, _. split; [vm_compute; reflexivity|]. by vm_compute. Qed.

Example dealer_stands_on_soft_17 (deck : list card) :
  dealer_draw deck [lit "A" ++ spades; lit "6" ++ hearts]
  = Ok (deck, [lit "A" ++ spades; lit "6" ++ hearts]).
Proof. by apply (dealer_draw_stands _ _ 17). Qed.

(** C10. [settle_blackjack] answers 404 for a session that is not on
    record, but has no such answer for a session whose player is not: it
    raises an exception that is not an [HTTPException] and writes nothing.
    When the dealer's draw and the scoring go through, the exception is the
    [TypeError] of subscripting the absent player record. *)
Theorem settle_blackjack_missing_player session_id db sid session :
  ObjectId session_id = Ok sid →
  blackjacksession db !! sid = Some session →
  (∀ oid, ObjectId (s_player_id session) = Ok oid → player db !! oid = None) →
  ∃ e,
    settle_blackjack session_id db = (Raise e, db)
    ∧ is_HTTPException e = false
    ∧ (∀ oid drawn p_val d_val,
         ObjectId (s_player_id session) = Ok oid →
         dealer_draw (s_deck session) (s_dealer_hand session) = Ok drawn →
         hand_value (s_player_hand session) = Ok p_val →
         hand_value drawn.2 = Ok d_val →
         e = TypeError).
Proof.
  intros Hsid Hs Hnone.
  unfold settle_blackjack. unfold_handler. rewrite Hsid, Hs.
  destruct (ObjectId (s_player_id session)) as [oid|e] eqn:Hoid; simpl.
  2:{ exists e. split_and!; [done| |intros; congruence].
      revert Hoid. unfold ObjectId. case_match; [done|]. by intros [= <-]. }
  rewrite (Hnone _ eq_refl).
  destruct (dealer_draw _ _) as [drawn|e] eqn:Hd; simpl.
  2:{ exists e. split_and!; [done| |intros; congruence].
      by destruct (dealer_draw_Raise _ _ _ Hd) as [-> | ->]. }
  destruct (hand_value (s_player_hand session)) as [p_val|e] eqn:Hp; simpl.
  2:{ exists e. split_and!; [done| |intros; congruence].
      by rewrite (hand_value_Raise _ _ Hp). }
  destruct (hand_value drawn.2) as [d_val|e] eqn:Hdv; simpl.
  2:{ exists e. split_and!; [done| |intros; congruence].
      by rewrite (hand_value_Raise _ _ Hdv). }
  exists TypeError. done.
Qed.

Lemma settle_blackjack_missing_player_witness :
  let db := mkDB ∅ (blackjacksession (db_playing 100)) [] in
  ∃ session,
    blackjacksession db !! table = Some session
    ∧ ∃ e,
        settle_blackjack table db = (Raise e, db)
        ∧ is_HTTPException e = false
        ∧ (∀ oid drawn p_val d_val,
             ObjectId (s_player_id session) = Ok oid →
             dealer_draw (s_deck session) (s_dealer_hand session) = Ok drawn →
             hand_value (s_player_hand session) = Ok p_val →
             hand_value drawn.2 = Ok d_val →
             e = TypeError).
Proof.
  intros db. eexists. split; [vm_compute; reflexivity|].
  eapply (settle_blackjack_missing_player table db table).
  - vm_compute; reflexivity.
  - vm_compute; reflexivity.
  - intros oid _. apply lookup_empty.
Defined.

Example settle_blackjack_missing_player_TypeError :
  (settle_blackjack table (mkDB ∅ (blackjacksession (db_playing 100)) [])).1
  = Raise TypeError.
Proof. by vm_compute. Qed.

(** Settling a settled session again: what stays and what does not. The
    dealer draws nothing and the hands, totals, result and payout are
    those of the first settlement; the payout is added to the balance a
    second time and a second history record is written. *)
Lemma settle_blackjack_again session_id db o db' :
  settle_blackjack session_id db = (Ok o, db') →
  ∃ o' db'' oid p',
    settle_blackjack session_id db' = (Ok o', db'')
    ∧ o_player_hand o' = o_player_hand o
    ∧ o_dealer_hand o' = o_dealer_hand o
    ∧ o_p_val o' = o_p_val o ∧ o_d_val o' = o_d_val o
    ∧ o_result o' = o_result o
    ∧ o_payout o' = o_payout o
    ∧ blackjacksession db'' = blackjacksession db'
    ∧ player db' !! oid = Some p'
    ∧ balance p' = o_balance o
    ∧ (∃ payout, o_payout o = round2 payout
                 ∧ o_balance o' = round2 (o_balance o + payout))
    ∧ length (bethistory db'') = S (length (bethistory db')).
Proof.
  intros H. apply settle_blackjack_Ok in H
    as (sid & session & oid & p & deck' & dealer_hand' & p_val & d_val
        & Hsid & Hs & Hoid & Hp & Hd & Hpv & Hdv & -> & ->).
  destruct (dealer_draw_Ok _ _ _ _ Hd) as (drawn & d_val' & _ & _ & Hdv' & Hge & _).
  assert (d_val' = d_val) as -> by congruence.
  set (rules := settle_rules p_val d_val (s_player_hand session) dealer_hand'
                  (s_bet session)).
  set (db' := mkDB _ _ _).
  set (session' := mkSession (s_player_id session) (s_bet session) deck'
                     (s_player_hand session) dealer_hand' "finished").
  set (p' := mkPlayer (nickname p) (round2 (balance p + rules.1)) (vip_level p)).
  assert (blackjacksession db' !! sid = Some session') as Hs'.
  { simpl. by rewrite lookup_alter_eq, Hs. }
  assert (player db' !! oid = Some p') as Hp'.
  { simpl. by rewrite lookup_alter_eq, Hp. }
  eexists _, _, oid, p'. split.
  { apply (settle_blackjack_run session_id db' sid session' oid p' deck'
             dealer_hand' p_val d_val); try done.
    simpl. by apply (dealer_draw_stands _ _ d_val). }
  simpl. split_and!; try done.
  - apply map_eq. intros k. rewrite lookup_alter.
    case_decide; [subst k | done].
    unfold db' in Hs'. simpl in Hs'. by rewrite Hs'.
  - exists rules.1. done.
  - rewrite length_app. simpl. lia.
Qed.

(** C1 fails on the code. Alice's hand was settled within the start request
    as a player blackjack: 150 chips on a stake of 100, balance 1150.
    Standing on the finished session gives the same hands, totals, result
    and payout, and pays the 150 chips again: balance 1300. *)
Theorem stand_on_finished_pays_again :
  ∃ o1 o2 db2 s p1 p2,
    (POST_blackjack_start draws_natural table (mkBlackjackStart alice 100)
       db_signup).1 = Ok (Settled (Some table) o1)
    ∧ blackjacksession db_finished !! table = Some s
    ∧ s_status s = "finished"
    ∧ blackjack_stand (mkBlackjackAction table) db_finished = (Ok o2, db2)
    ∧ o_dealer_hand o2 = o_dealer_hand o1
    ∧ o_result o1 = "player_blackjack" ∧ o_result o2 = "player_blackjack"
    ∧ (o_payout o1 == 150)%Q ∧ (o_payout o2 == 150)%Q
    ∧ player db_finished !! alice = Some p1 ∧ (balance p1 == 1150)%Q
    ∧ player db2 !! alice = Some p2 ∧ (balance p2 == 1300)%Q
    ∧ (o_balance o2 == 1300)%Q
    ∧ length (bethistory db_finished) = 1%nat
    ∧ length (bethistory db2) = 2%nat.
Proof.
  eexists _, _, _, _, _, _.
  do 14 (split; [vm_compute; reflexivity|]).
  split; vm_compute; reflexivity.
Qed.


(** ** Roulette and slots *)

Lemma randint_range a b r : a ≤ b → a ≤ randint a b r ≤ b.
Proof.
  intros Hab. unfold randint.
  pose proof (Z.mod_pos_bound (Z.of_nat r) (b - a + 1)). lia.
Qed.

Lemma colors_color_of n : 0 ≤ n ≤ 36 → colors !! n = Some (color_of n).
Proof.
  intros Hn.
  assert (Forall (λ n, colors !! n = Some (color_of n)) (seqZ 0 37)) as H.
  { apply (bool_decide_unpack _). vm_compute. exact I. }
  rewrite Forall_forall in H. apply H. apply elem_of_seqZ. lia.
Qed.

Lemma bet_roulette_eq rnd bet db :
  bet_roulette rnd bet db =
    match ObjectId (rb_player_id bet) with
    | Raise e => (Raise e, db)
    | Ok oid =>
        match player db !! oid with
        | None => (Raise (HTTPException 404 "Player not found"), db)
        | Some p =>
            if Qltb (balance p) (rb_amount bet)
            then (Raise (HTTPException 400 "Insufficient balance"), db)
            else
              let result := randint 0 36 rnd in
              let color := color_of result in
              match roulette_resolve bet result color with
              | Raise e => (Raise e, db)
              | Ok wp =>
                  (Ok (mkRouletteResponse result color (round2 wp.2)
                         (round2 (balance p + wp.2))),
                   mkDB
                     (alter (λ q, mkPlayer (nickname q)
                                    (round2 (balance p + wp.2)) (vip_level q))
                        oid (player db))
                     (blackjacksession db)
                     (bethistory db
                      ++ [mkBetHistory (rb_player_id bet) "roulette"
                            (rb_amount bet)
                            (pretty result +:+ " (" +:+ color +:+ ")")
                            (round2 wp.2)
                            (RouletteMeta (rb_bet_type bet) (rb_value bet))]))
              end
        end
    end.
Proof.
  unfold bet_roulette. unfold_handler.
  destruct (ObjectId _) as [oid|]; [|done].
  destruct (player db !! oid) as [p|]; [|done].
  destruct (Qltb _ _); [done|].
  unfold getitem. rewrite colors_color_of by (by apply randint_range).
  simpl. by destruct (roulette_resolve _ _ _).
Qed.

Lemma choice_symbols r : ∃ s, choice symbols r = Ok s ∧ s ∈ symbols.
Proof.
  unfold choice, index, randbelow.
  destruct (symbols !! (r `mod` length symbols)%nat) as [s|] eqn:E.
  - exists s. split; [done|]. by apply list_elem_of_lookup_2 in E.
  - apply lookup_ge_None in E.
    pose proof (Nat.mod_upper_bound r (length symbols)). simpl in *. lia.
Qed.

Lemma size_reels (a b c : string) :
  size (list_to_set [a; b; c] : gset string) =
    if decide (a = b ∧ b = c) then 1%nat
    else if decide (a = b ∨ b = c ∨ a = c) then 2%nat
    else 3%nat.
Proof.
  destruct (decide (a = b)) as [->|Hab]; destruct (decide (b = c)) as [->|Hbc].
  - rewrite decide_True by done.
    assert ((list_to_set [c; c; c] : gset string) = {[c]}) as -> by set_solver.
    apply size_singleton.
  - rewrite decide_False by tauto. rewrite decide_True by tauto.
    assert ((list_to_set [b; b; c] : gset string) = list_to_set [b; c]) as ->
      by set_solver.
    rewrite size_list_to_set; [done|]. repeat constructor; set_solver.
  - rewrite decide_False by tauto. rewrite decide_True by tauto.
    assert ((list_to_set [a; c; c] : gset string) = list_to_set [a; c]) as ->
      by set_solver.
    rewrite size_list_to_set; [done|]. repeat constructor; set_solver.
  - rewrite decide_False by tauto.
    destruct (decide (a = c)) as [->|Hac].
    + rewrite decide_True by tauto.
      assert ((list_to_set [c; b; c] : gset string) = list_to_set [b; c]) as ->
        by set_solver.
      rewrite size_list_to_set; [done|]. repeat constructor; set_solver.
    + rewrite decide_False by tauto.
      rewrite size_list_to_set; [done|]. repeat constructor; set_solver.
Qed.

(** The multiplier of three reels. *)
Lemma payout_mult_reels (a b c : string) :
  payout_mult [a; b; c] =
    Ok (if decide (a = b ∧ b = c) then (if decide (a = seven) then 20 else 10)
        else if decide (a = b ∨ b = c ∨ a = c) then 2
        else 0).
Proof.
  unfold payout_mult. rewrite size_reels.
  destruct (decide (a = b ∧ b = c)); simpl.
  - by destruct (decide (a = seven)).
  - by destruct (decide (a = b ∨ b = c ∨ a = c)).
Qed.

Lemma bet_slots_eq rnd1 rnd2 rnd3 bet db :
  ∃ reel1 reel2 reel3,
    choice symbols rnd1 = Ok reel1 ∧ choice symbols rnd2 = Ok reel2
    ∧ choice symbols rnd3 = Ok reel3
    ∧ reel1 ∈ symbols ∧ reel2 ∈ symbols ∧ reel3 ∈ symbols
    ∧ bet_slots rnd1 rnd2 rnd3 bet db =
    match ObjectId (sb_player_id bet) with
    | Raise e => (Raise e, db)
    | Ok oid =>
        match player db !! oid with
        | None => (Raise (HTTPException 404 "Player not found"), db)
        | Some p =>
            if Qltb (balance p) (sb_amount bet)
            then (Raise (HTTPException 400 "Insufficient balance"), db)
            else
              let reels := [reel1; reel2; reel3] in
              let mult :=
                if decide (reel1 = reel2 ∧ reel2 = reel3)
                then (if decide (reel1 = seven) then 20 else 10)
                else if decide (reel1 = reel2 ∨ reel2 = reel3 ∨ reel1 = reel3)
                     then 2 else 0 in
              let payout := (sb_amount bet * inject_Z mult - sb_amount bet)%Q in
              (Ok (mkSlotsResponse reels (round2 payout)
                     (round2 (balance p + payout))),
               mkDB
                 (alter (λ q, mkPlayer (nickname q)
                                (round2 (balance p + payout)) (vip_level q))
                    oid (player db))
                 (blackjacksession db)
                 (bethistory db
                  ++ [mkBetHistory (sb_player_id bet) "slots" (sb_amount bet)
                        (reel1 +:+ reel2 +:+ reel3) (round2 payout)
                        (SlotsMeta reels mult)]))
        end
    end.
Proof.
  destruct (choice_symbols rnd1) as (reel1 & H1 & ?).
  destruct (choice_symbols rnd2) as (reel2 & H2 & ?).
  destruct (choice_symbols rnd3) as (reel3 & H3 & ?).
  exists reel1, reel2, reel3. split_and!; try done.
  unfold bet_slots. unfold_handler.
  destruct (ObjectId _) as [oid|]; [|done].
  destruct (player db !! oid) as [p|]; [|done].
  destruct (Qltb _ _); [done|].
  rewrite H1, H2, H3, payout_mult_reels. done.
Qed.

(** C6. A spin that is paid out drew a number from 0 to 36; its color is
    green for 0, red for the canonical red numbers and black for the rest.
    A bet on red or black wins the stake when the color is the one bet on
    and loses the stake otherwise; a bet on a number wins 35 times the
    stake when the number comes up and loses the stake otherwise. The
    payout is reported rounded and added to the balance. *)
Theorem bet_roulette_spin rnd bet db r db' :
  bet_roulette rnd bet db = (Ok r, db') →
  0 ≤ rr_result r ≤ 36
  ∧ rr_result r = randint 0 36 rnd
  ∧ rr_color r = color_of (rr_result r)
  ∧ ∃ oid p payout,
      ObjectId (rb_player_id bet) = Ok oid
      ∧ player db !! oid = Some p
      ∧ ((rb_bet_type bet = "red" ∨ rb_bet_type bet = "black")
         ∧ (rr_color r = rb_bet_type bet → payout == rb_amount bet)%Q
         ∧ (rr_color r ≠ rb_bet_type bet → payout == - rb_amount bet)%Q
         ∨ rb_bet_type bet = "number"
           ∧ ∃ value, rb_value bet = Some value
             ∧ (rr_result r = value → payout == 35 * rb_amount bet)%Q
             ∧ (rr_result r ≠ value → payout == - rb_amount bet)%Q)
      ∧ rr_payout r = round2 payout
      ∧ rr_balance r = round2 (balance p + payout)
      ∧ balance <$> player db' !! oid = Some (rr_balance r).
Proof.
  rewrite bet_roulette_eq. intros H.
  destruct (ObjectId _) as [oid|] eqn:Hoid; [|done].
  destruct (player db !! oid) as [p|] eqn:Hp; [|done].
  destruct (Qltb _ _); [done|]. simpl in H.
  destruct (roulette_resolve _ _ _) as [[win payout]|] eqn:Hr; [|done].
  injection H as <- <-. simpl.
  split; [by apply randint_range|]. do 2 (split; [done|]).
  exists oid, p, payout. split_and!; try done.
  2:{ by rewrite lookup_alter_eq, Hp. }
  revert Hr. unfold roulette_resolve.
  destruct (decide (_ ∨ _)) as [Hc|Hc].
  - destruct (decide (_ = _)) as [Heq|Hne]; intros [= <- <-]; left;
      split_and!; try done.
  - destruct (decide (rb_bet_type bet = "number")) as [Hn|]; [|done].
    destruct (rb_value bet) as [value|]; [|done].
    destruct (decide (_ = _)) as [Heq|Hne]; intros [= <- <-]; right;
      (split; [done|]); exists value; split_and!; try done.
    intros _. apply Qmult_comm.
Qed.

Lemma bet_roulette_spin_witness :
  ∃ r db',
    bet_roulette 1 (mkRouletteBet alice 100 "red" None) db_signup = (Ok r, db')
    ∧ 0 ≤ rr_result r ≤ 36
    ∧ rr_result r = randint 0 36 1
    ∧ rr_color r = color_of (rr_result r)
    ∧ ∃ oid p payout,
        ObjectId alice = Ok oid
        ∧ player db_signup !! oid = Some p
        ∧ (("red" = "red" ∨ "red" = "black")
           ∧ (rr_color r = "red" → payout == 100)%Q
           ∧ (rr_color r ≠ "red" → payout == - 100)%Q
           ∨ "red" = "number"
             ∧ ∃ value, None = Some value
               ∧ (rr_result r = value → payout == 35 * 100)%Q
               ∧ (rr_result r ≠ value → payout == - 100)%Q)
        ∧ rr_payout r = round2 payout
        ∧ rr_balance r = round2 (balance p + payout)
        ∧ balance <$> player db' !! oid = Some (rr_balance r).
Proof.
  eexists _, _. split; [vm_compute; reflexivity|].
  apply (bet_roulette_spin 1 (mkRouletteBet alice 100 "red" None) db_signup).
  vm_compute; reflexivity.
Defined.

Example roulette_red_on_one :
  (bet_roulette 1 (mkRouletteBet alice 100 "red" None) db_signup).1
  = Ok (mkRouletteResponse 1 "red" (round2 100) (round2 1100)).
Proof. by vm_compute. Qed.

(** C5. A slots bet that is paid out drew three reels from the six
    symbols. Three of a kind multiply the stake by 20 for sevens and by 10
    for any other symbol, exactly two of a kind by 2, three different
    symbols by 0; the stake times the multiplier, less the stake, is the
    payout that is reported rounded and added to the balance. *)
Theorem bet_slots_multiplier rnd1 rnd2 rnd3 bet db r db' :
  bet_slots rnd1 rnd2 rnd3 bet db = (Ok r, db') →
  length symbols = 6%nat
  ∧ ∃ a b c mult oid p,
      sr_reels r = [a; b; c]
      ∧ a ∈ symbols ∧ b ∈ symbols ∧ c ∈ symbols
      ∧ payout_mult (sr_reels r) = Ok mult
      ∧ (a = b ∧ b = c → a = seven → mult = 20)
      ∧ (a = b ∧ b = c → a ≠ seven → mult = 10)
      ∧ (¬ (a = b ∧ b = c) → a = b ∨ b = c ∨ a = c → mult = 2)
      ∧ (a ≠ b → b ≠ c → a ≠ c → mult = 0)
      ∧ ObjectId (sb_player_id bet) = Ok oid
      ∧ player db !! oid = Some p
      ∧ let payout := (sb_amount bet * inject_Z mult - sb_amount bet)%Q in
        sr_payout r = round2 payout
        ∧ sr_balance r = round2 (balance p + payout)
        ∧ balance <$> player db' !! oid = Some (sr_balance r)
        ∧ bh_metadata <$> last (bethistory db') = Some (SlotsMeta [a; b; c] mult).
Proof.
  destruct (bet_slots_eq rnd1 rnd2 rnd3 bet db)
    as (a & b & c & _ & _ & _ & Ha & Hb & Hc & ->).
  intros H. split; [done|].
  destruct (ObjectId _) as [oid|] eqn:Hoid; [|done].
  destruct (player db !! oid) as [p|] eqn:Hp; [|done].
  destruct (Qltb _ _); [done|]. simpl in H. injection H as <- <-. simpl.
  exists a, b, c,
    (if decide (a = b ∧ b = c) then (if decide (a = seven) then 20 else 10)
     else if decide (a = b ∨ b = c ∨ a = c) then 2 else 0), oid, p.
  split_and!; try done.
  - apply payout_mult_reels.
  - intros Habc Hs. by rewrite !decide_True.
  - intros Habc Hs. by rewrite decide_True, decide_False.
  - intros Hn Hor. by rewrite decide_False, decide_True.
  - intros Hab Hbc Hac. rewrite !decide_False; [done|tauto|tauto].
  - by rewrite lookup_alter_eq, Hp.
  - by rewrite last_snoc.
Qed.

Lemma bet_slots_multiplier_witness :
  ∃ r db',
    bet_slots 4 10 16 (mkSlotsBet alice 100) db_signup = (Ok r, db')
    ∧ length symbols = 6%nat
    ∧ ∃ a b c mult oid p,
        sr_reels r = [a; b; c]
        ∧ a ∈ symbols ∧ b ∈ symbols ∧ c ∈ symbols
        ∧ payout_mult (sr_reels r) = Ok mult
        ∧ (a = b ∧ b = c → a = seven → mult = 20)
        ∧ (a = b ∧ b = c → a ≠ seven → mult = 10)
        ∧ (¬ (a = b ∧ b = c) → a = b ∨ b = c ∨ a = c → mult = 2)
        ∧ (a ≠ b → b ≠ c → a ≠ c → mult = 0)
        ∧ ObjectId alice = Ok oid
        ∧ player db_signup !! oid = Some p
        ∧ let payout := (100 * inject_Z mult - 100)%Q in
          sr_payout r = round2 payout
          ∧ sr_balance r = round2 (balance p + payout)
          ∧ balance <$> player db' !! oid = Some (sr_balance r)
          ∧ bh_metadata <$> last (bethistory db') = Some (SlotsMeta [a; b; c] mult).
Proof.
  eexists _, _. split; [vm_compute; reflexivity|].
  apply (bet_slots_multiplier 4 10 16 (mkSlotsBet alice 100) db_signup).
  vm_compute; reflexivity.
Defined.

Example slots_three_sevens :
  (bet_slots 4 10 16 (mkSlotsBet alice 100) db_signup).1
  = Ok (mkSlotsResponse [seven; seven; seven] (round2 1900) (round2 2900)).
Proof. by vm_compute. Qed.

(** ** Claims across the three games *)

Lemma route_eq {R A} (valid : R → bool) (handler : R → M A) body db :
  route valid handler body db =
    if valid body then handler body db else (Raise RequestValidationError, db).
Proof. unfold route. by destruct (valid body). Qed.

Lemma ObjectId_Raise s e : ObjectId s = Raise e → e = InvalidId.
Proof. unfold ObjectId. case_match; [done|]. by intros [= <-]. Qed.

(** A win pays, a loss costs, whatever the kind of bet. *)
Lemma roulette_resolve_sign bet result color win payout :
  (0 < rb_amount bet)%Q →
  roulette_resolve bet result color = Ok (win, payout) →
  if win then (0 < payout)%Q else (payout < 0)%Q.
Proof.
  intros Ha. unfold roulette_resolve.
  repeat case_match; intros ?; simplify_eq; lra.
Qed.


Lemma settle_rules_sign p_val d_val player_hand dealer_hand bet :
  (0 < bet)%Q →
  let rules := settle_rules p_val d_val player_hand dealer_hand bet in
  player_wins rules.2 ∧ (0 < rules.1)%Q
  ∨ player_loses rules.2 ∧ (rules.1 < 0)%Q
  ∨ rules.2 = "push" ∧ (rules.1 == 0)%Q.
Proof.
  intros Hb. unfold settle_rules, player_wins, player_loses.
  repeat case_match; simpl;
    solve [ left; split; [set_solver | lra]
          | right; left; split; [set_solver | lra]
          | right; right; split; [done | lra] ].
Qed.

Lemma settle_rules_lower p_val d_val player_hand dealer_hand bet :
  (0 <= bet)%Q →
  (- bet <= (settle_rules p_val d_val player_hand dealer_hand bet).1)%Q.
Proof.
  intros Hb. unfold settle_rules. repeat case_match; simpl; lra.
Qed.

(** C9. In each game a bet that is resolved writes back the balance read
    plus the payout, rounded to two places; the payout goes rounded to two
    places into the response and into the history record; and the payout
    is positive on a win, negative on a loss and zero on a push. *)
Theorem payouts_are_rounded_and_signed :
  (∀ rnd bet db r db',
     POST_bet_roulette rnd bet db = (Ok r, db') →
     ∃ oid p win payout h,
       ObjectId (rb_player_id bet) = Ok oid
       ∧ player db !! oid = Some p
       ∧ roulette_resolve bet (rr_result r) (rr_color r) = Ok (win, payout)
       ∧ balance <$> player db' !! oid = Some (round2 (balance p + payout))
       ∧ rr_balance r = round2 (balance p + payout)
       ∧ rr_payout r = round2 payout
       ∧ bethistory db' = bethistory db ++ [h]
       ∧ bh_payout h = round2 payout
       ∧ if win then (0 < payout)%Q else (payout < 0)%Q)
  ∧ (∀ rnd1 rnd2 rnd3 bet db r db',
       POST_bet_slots rnd1 rnd2 rnd3 bet db = (Ok r, db') →
       ∃ oid p mult payout h,
         ObjectId (sb_player_id bet) = Ok oid
         ∧ player db !! oid = Some p
         ∧ payout_mult (sr_reels r) = Ok mult
         ∧ payout = (sb_amount bet * inject_Z mult - sb_amount bet)%Q
         ∧ balance <$> player db' !! oid = Some (round2 (balance p + payout))
         ∧ sr_balance r = round2 (balance p + payout)
         ∧ sr_payout r = round2 payout
         ∧ bethistory db' = bethistory db ++ [h]
         ∧ bh_payout h = round2 payout
         ∧ if decide (0 < mult) then (0 < payout)%Q else (payout < 0)%Q)
  ∧ (∀ session_id db o db',
       settle_blackjack session_id db = (Ok o, db') →
       ∃ sid session oid p payout h,
         ObjectId session_id = Ok sid
         ∧ blackjacksession db !! sid = Some session
         ∧ ObjectId (s_player_id session) = Ok oid
         ∧ player db !! oid = Some p
         ∧ balance <$> player db' !! oid = Some (round2 (balance p + payout))
         ∧ o_balance o = round2 (balance p + payout)
         ∧ o_payout o = round2 payout
         ∧ bethistory db' = bethistory db ++ [h]
         ∧ bh_payout h = round2 payout
         ∧ bh_result h = o_result o
         ∧ ((0 < s_bet session)%Q →
            player_wins (o_result o) ∧ (0 < payout)%Q
            ∨ player_loses (o_result o) ∧ (payout < 0)%Q
            ∨ o_result o = "push" ∧ (payout == 0)%Q)).
Proof.
  split_and!.
  - intros rnd bet db r db'. unfold POST_bet_roulette.
    rewrite route_eq, bet_roulette_eq.
    destruct (RouletteBet_valid bet) eqn:Hv; [|done].
    apply andb_prop in Hv as [Ha%Qltb_lt _].
    destruct (ObjectId _) as [oid|] eqn:Hoid; [|done].
    destruct (player db !! oid) as [p|] eqn:Hp; [|done].
    destruct (Qltb _ _); [done|]. simpl.
    destruct (roulette_resolve _ _ _) as [[win payout]|] eqn:Hr; [|done].
    intros [= <- <-]. simpl. eexists oid, p, win, payout, _.
    split_and!; try done.
    all: try by rewrite lookup_alter_eq, Hp.
    by apply (roulette_resolve_sign _ _ _ _ _ Ha Hr).
  - intros rnd1 rnd2 rnd3 bet db r db'. unfold POST_bet_slots.
    rewrite route_eq.
    destruct (bet_slots_eq rnd1 rnd2 rnd3 bet db)
      as (a & b & c & _ & _ & _ & _ & _ & _ & ->).
    destruct (SlotsBet_valid bet) eqn:Hv; [|done].
    apply Qltb_lt in Hv.
    destruct (ObjectId _) as [oid|] eqn:Hoid; [|done].
    destruct (player db !! oid) as [p|] eqn:Hp; [|done].
    destruct (Qltb _ _); [done|]. simpl.
    intros [= <- <-]. simpl. eexists oid, p, _, _, _.
    split_and!; try done.
    all: try by rewrite lookup_alter_eq, Hp.
    + apply payout_mult_reels.
    + repeat case_match; unfold inject_Z; try lia; lra.
  - intros session_id db o db' H. apply settle_blackjack_Ok in H
      as (sid & session & oid & p & deck' & dealer_hand' & p_val & d_val
          & Hsid & Hs & Hoid & Hp & Hd & Hpv & Hdv & -> & ->).
    eexists sid, session, oid, p, _, _. simpl. split_and!; try done.
    all: try by rewrite lookup_alter_eq, Hp.
    intros Hb. by apply settle_rules_sign.
Qed.

Lemma payouts_are_rounded_and_signed_witness :
  (∃ r db' p win payout,
     POST_bet_roulette 1 (mkRouletteBet alice 100 "red" None) db_signup
       = (Ok r, db')
     ∧ player db_signup !! alice = Some p
     ∧ roulette_resolve (mkRouletteBet alice 100 "red" None) (rr_result r)
         (rr_color r) = Ok (win, payout)
     ∧ balance <$> player db' !! alice = Some (round2 (balance p + payout))
     ∧ rr_payout r = round2 payout
     ∧ if win then (0 < payout)%Q else (payout < 0)%Q)
  ∧ (∃ r db' p mult payout,
       POST_bet_slots 0 1 2 (mkSlotsBet alice 100) db_signup = (Ok r, db')
       ∧ player db_signup !! alice = Some p
       ∧ payout_mult (sr_reels r) = Ok mult
       ∧ balance <$> player db' !! alice = Some (round2 (balance p + payout))
       ∧ sr_payout r = round2 payout
       ∧ if decide (0 < mult) then (0 < payout)%Q else (payout < 0)%Q)
  ∧ (∃ o db' p payout,
       settle_blackjack table (db_playing 100) = (Ok o, db')
       ∧ player (db_playing 100) !! alice = Some p
       ∧ balance <$> player db' !! alice = Some (round2 (balance p + payout))
       ∧ o_payout o = round2 payout
       ∧ (player_wins (o_result o) ∧ (0 < payout)%Q
          ∨ player_loses (o_result o) ∧ (payout < 0)%Q
          ∨ o_result o = "push" ∧ (payout == 0)%Q)).
Proof.
  destruct payouts_are_rounded_and_signed as (Hroulette & Hslots & Hblackjack).
  split_and!.
  - destruct (POST_bet_roulette 1 (mkRouletteBet alice 100 "red" None) db_signup)
      as [[r|e] db'] eqn:E; [|vm_compute in E; discriminate].
    destruct (Hroulette _ _ _ _ _ E)
      as (oid & p & win & payout & h & Hoid & Hp & Hr & Hbal & _ & Hpay & _ & _ & Hsign).
    vm_compute in Hoid. injection Hoid as <-.
    exists r, db', p, win, payout.
    split; [reflexivity|]. split; [exact Hp|]. split; [exact Hr|].
    split; [exact Hbal|]. split; [exact Hpay | exact Hsign].
  - destruct (POST_bet_slots 0 1 2 (mkSlotsBet alice 100) db_signup)
      as [[r|e] db'] eqn:E; [|vm_compute in E; discriminate].
    destruct (Hslots _ _ _ _ _ _ _ E)
      as (oid & p & mult & payout & h & Hoid & Hp & Hm & _ & Hbal & _ & Hpay & _ & _ & Hsign).
    vm_compute in Hoid. injection Hoid as <-.
    exists r, db', p, mult, payout.
    split; [reflexivity|]. split; [exact Hp|]. split; [exact Hm|].
    split; [exact Hbal|]. split; [exact Hpay | exact Hsign].
  - destruct (settle_blackjack table (db_playing 100)) as [[o|e] db'] eqn:E;
      [|vm_compute in E; discriminate].
    destruct (Hblackjack _ _ _ _ E)
      as (sid & session & oid & p & payout & h & Hsid & Hs & Hoid & Hp & Hbal
          & _ & Hpay & _ & _ & _ & Hsign).
    vm_compute in Hsid. injection Hsid as <-.
    vm_compute in Hs. injection Hs as <-.
    vm_compute in Hoid. injection Hoid as <-.
    exists o, db', p, payout.
    split; [reflexivity|]. split; [exact Hp|]. split; [exact Hbal|].
    split; [exact Hpay|]. apply Hsign. reflexivity.
Defined.

(** ** Starting a hand *)

Lemma blackjack_start_Ok draws new_id data db r db' :
  blackjack_start draws new_id data db = (Ok r, db') →
  ∃ oid p session,
    ObjectId (bs_player_id data) = Ok oid
    ∧ player db !! oid = Some p
    ∧ (bs_amount data <= balance p)%Q
    ∧ s_player_id session = bs_player_id data
    ∧ s_bet session = bs_amount data
    ∧ new_deck draws ≡ₚ
        s_deck session ++ s_dealer_hand session ++ s_player_hand session
    ∧ length (s_player_hand session) = 2%nat
    ∧ length (s_dealer_hand session) = 2%nat
    ∧ let db1 :=
        mkDB (player db) (<[new_id := session]> (blackjacksession db))
          (bethistory db) in
      match r with
      | Playing session_id player_hand _ status =>
          db' = db1 ∧ session_id = new_id
          ∧ player_hand = s_player_hand session ∧ status = "playing"
      | Settled session_id o =>
          session_id = Some new_id ∧ settle_blackjack new_id db1 = (Ok o, db')
      end.
Proof.
  unfold blackjack_start. unfold_handler.
  destruct (ObjectId _) as [oid|] eqn:Hoid; [|done].
  destruct (player db !! oid) as [p|] eqn:Hp; [|done].
  destruct (Qltb _ _) eqn:Hb; [done|]. apply Qltb_ge in Hb.
  destruct (pop (new_deck draws)) as [[c1 r1]|] eqn:H1; [|done]. simpl.
  destruct (pop r1) as [[c2 r2]|] eqn:H2; [|done]. simpl.
  destruct (pop r2) as [[c3 r3]|] eqn:H3; [|done]. simpl.
  destruct (pop r3) as [[c4 r4]|] eqn:H4; [|done]. simpl.
  apply pop_Ok in H1, H2, H3, H4.
  assert (new_deck draws ≡ₚ r4 ++ [c3; c4] ++ [c1; c2]) as Hdeck.
  { rewrite H1, H2, H3, H4, <- !app_assoc. simpl.
    apply Permutation_app_head.
    rewrite (Permutation_swap c4 c3), (Permutation_swap c2 c1). done. }
  set (session := mkSession _ _ _ _ _ _).
  destruct (hand_value [c1; c2]) as [p_val|]; [|done]. simpl.
  destruct (hand_value [c3; c4]) as [d_val|]; [|done]. simpl.
  destruct (_ || _).
  - destruct (settle_blackjack new_id _) as [[o|] db''] eqn:Hs; [|done].
    intros [= <- <-]. exists oid, p, session. by split_and!.
  - intros [= <- <-]. exists oid, p, session. by split_and!.
Qed.

(** The checks [blackjack_start] makes before it deals. *)
Lemma blackjack_start_checks draws new_id data db :
  match ObjectId (bs_player_id data) with
  | Raise e => blackjack_start draws new_id data db = (Raise e, db)
  | Ok oid =>
      match player db !! oid with
      | None =>
          blackjack_start draws new_id data db =
            (Raise (HTTPException 404 "Player not found"), db)
      | Some p =>
          (balance p < bs_amount data)%Q →
          blackjack_start draws new_id data db =
            (Raise (HTTPException 400 "Insufficient balance"), db)
      end
  end.
Proof.
  unfold blackjack_start. unfold_handler.
  destruct (ObjectId _) as [oid|]; [|done].
  destruct (player db !! oid) as [p|]; [|done].
  intros Hb. apply Qltb_lt in Hb. by rewrite Hb.
Qed.

(** A hand that has just been dealt is ready to be settled: its cards are
    valid and 48 of them are left in the deck. *)
Lemma blackjack_start_session_ready draws new_id data db session_id player_hand
    dealer_hand status db' :
  blackjack_start draws new_id data db
    = (Ok (Playing session_id player_hand dealer_hand status), db') →
  ∃ session,
    blackjacksession db' !! new_id = Some session
    ∧ Forall valid_card (s_deck session)
    ∧ Forall valid_card (s_dealer_hand session)
    ∧ Forall valid_card (s_player_hand session)
    ∧ length (s_deck session) = 48%nat
    ∧ length (s_dealer_hand session) = 2%nat.
Proof.
  intros H. apply blackjack_start_Ok in H
    as (oid & p & session & _ & _ & _ & _ & _ & Hdeck & Hph & Hdh & -> & _).
  exists session. simpl. rewrite lookup_insert_eq.
  pose proof (new_deck_valid draws) as Hvalid.
  rewrite Hdeck, !Forall_app in Hvalid. destruct Hvalid as (? & ? & ?).
  pose proof (new_deck_length draws) as Hlen.
  rewrite Hdeck, !length_app, Hph, Hdh in Hlen.
  split_and!; try done. lia.
Qed.

(** ** Balances stay non-negative *)



(** C2 fails on the code. Alice starts a hand with her whole balance of
    1000 chips at stake, loses 1000 chips at roulette while the hand is
    open, then stands and loses the hand: the settlement takes the bet
    from a balance of zero and writes a balance of -1000, where roulette,
    slots and the start of a hand all check the funds first. *)
Lemma blackjack_stand_overdraws :
  ∃ r1 db1 r2 db2 o db3 p,
    POST_blackjack_start draws_aces table (mkBlackjackStart alice 1000)
      db_signup = (Ok r1, db1)
    ∧ POST_bet_roulette 1 (mkRouletteBet alice 1000 "number" (Some 0)) db1
      = (Ok r2, db2)
    ∧ (rr_balance r2 == 0)%Q
    ∧ blackjack_stand (mkBlackjackAction table) db2 = (Ok o, db3)
    ∧ o_p_val o = 12 ∧ o_d_val o = 18
    ∧ o_result o = "dealer_win"
    ∧ player db3 !! alice = Some p
    ∧ (balance p == - 1000)%Q
    ∧ (balance p < 0)%Q.
Proof.
  eexists _, _, _, _, _, _, _.
  do 8 (split; [vm_compute; reflexivity|]).
  split; vm_compute; reflexivity.
Qed.

(** Two hands opened on the same 1000 chips overdraw as well, with no other
    bet in between. *)
Example two_open_hands_overdraw :
  ∃ r1 db1 r2 db2 o1 db3 o2 db4 p,
    POST_blackjack_start draws_aces table (mkBlackjackStart alice 1000)
      db_signup = (Ok r1, db1)
    ∧ POST_blackjack_start draws_aces nobody (mkBlackjackStart alice 1000) db1
      = (Ok r2, db2)
    ∧ blackjack_stand (mkBlackjackAction table) db2 = (Ok o1, db3)
    ∧ (o_balance o1 == 0)%Q
    ∧ blackjack_stand (mkBlackjackAction nobody) db3 = (Ok o2, db4)
    ∧ o_result o2 = "dealer_win"
    ∧ player db4 !! alice = Some p
    ∧ (balance p == - 1000)%Q.
Proof.
  eexists _, _, _, _, _, _, _, _, _.
  do 7 (split; [vm_compute; reflexivity|]). vm_compute; reflexivity.
Qed.

(** C4. A bet request that fails validation is answered with an error and
    changes nothing: the store after the request is the store before it,
    balances and history included. The answer is 422 for an amount that is
    not positive, 404 for a player that is not on record, 400 for a balance
    below the stake, a bet type that is not known or a number bet without
    its number; an id that is not an ObjectId at all is [InvalidId]. *)
Theorem rejected_bets_change_nothing :
  (∀ rnd bet db,
     ¬ (0 < rb_amount bet)%Q
     ∨ ObjectId (rb_player_id bet) = Raise InvalidId
     ∨ (∃ oid, ObjectId (rb_player_id bet) = Ok oid ∧ player db !! oid = None)
     ∨ (∃ oid p, ObjectId (rb_player_id bet) = Ok oid
                 ∧ player db !! oid = Some p
                 ∧ (balance p < rb_amount bet)%Q)
     ∨ rb_bet_type bet ∉ ["red"; "black"; "number"]
     ∨ (rb_bet_type bet = "number" ∧ rb_value bet = None) →
     ∃ e,
       POST_bet_roulette rnd bet db = (Raise e, db)
       ∧ (status_of e ∈ [400; 404; 422]
          ∨ e = InvalidId ∧ ObjectId (rb_player_id bet) = Raise InvalidId))
  ∧ (∀ rnd1 rnd2 rnd3 bet db,
       ¬ (0 < sb_amount bet)%Q
       ∨ ObjectId (sb_player_id bet) = Raise InvalidId
       ∨ (∃ oid, ObjectId (sb_player_id bet) = Ok oid ∧ player db !! oid = None)
       ∨ (∃ oid p, ObjectId (sb_player_id bet) = Ok oid
                   ∧ player db !! oid = Some p
                   ∧ (balance p < sb_amount bet)%Q) →
       ∃ e,
         POST_bet_slots rnd1 rnd2 rnd3 bet db = (Raise e, db)
         ∧ (status_of e ∈ [400; 404; 422]
            ∨ e = InvalidId ∧ ObjectId (sb_player_id bet) = Raise InvalidId))
  ∧ (∀ draws new_id data db,
       ¬ (0 < bs_amount data)%Q
       ∨ ObjectId (bs_player_id data) = Raise InvalidId
       ∨ (∃ oid, ObjectId (bs_player_id data) = Ok oid ∧ player db !! oid = None)
       ∨ (∃ oid p, ObjectId (bs_player_id data) = Ok oid
                   ∧ player db !! oid = Some p
                   ∧ (balance p < bs_amount data)%Q) →
       ∃ e,
         POST_blackjack_start draws new_id data db = (Raise e, db)
         ∧ (status_of e ∈ [400; 404; 422]
            ∨ e = InvalidId ∧ ObjectId (bs_player_id data) = Raise InvalidId)).
Proof.
  split_and!.
  - intros rnd bet db Hbad. unfold POST_bet_roulette.
    rewrite route_eq, bet_roulette_eq.
    destruct (RouletteBet_valid bet) eqn:Hv; [|eexists; split; [done|left; simpl; set_solver]].
    apply andb_prop in Hv as [Ha%Qltb_lt _].
    destruct (ObjectId _) as [oid|e] eqn:Hoid.
    2:{ pose proof (ObjectId_Raise _ _ Hoid) as ->. eexists. split; [done|by right]. }
    destruct (player db !! oid) as [p|] eqn:Hp.
    2:{ eexists. split; [done|]. left; simpl; set_solver. }
    destruct (Qltb _ _) eqn:Hb.
    { eexists. split; [done|]. left; simpl; set_solver. }
    apply Qltb_ge in Hb. simpl.
    destruct Hbad as [H|[H|[H|[H|[H|H]]]]]; try done.
    + destruct H as (oid' & ? & ?). simplify_eq.
    + destruct H as (oid' & p' & ? & ? & Hlt). simplify_eq. lra.
    + unfold roulette_resolve.
      rewrite decide_False by (intros [E|E]; rewrite E in H; set_solver).
      rewrite decide_False by (intros E; rewrite E in H; set_solver).
      eexists. split; [done|]. left; simpl; set_solver.
    + destruct H as [Ht Hn]. unfold roulette_resolve.
      rewrite decide_False by (rewrite Ht; intros [E|E]; discriminate).
      rewrite decide_True, Hn by done.
      eexists. split; [done|]. left; simpl; set_solver.
  - intros rnd1 rnd2 rnd3 bet db Hbad. unfold POST_bet_slots.
    rewrite route_eq.
    destruct (bet_slots_eq rnd1 rnd2 rnd3 bet db)
      as (a & b & c & _ & _ & _ & _ & _ & _ & ->).
    destruct (SlotsBet_valid bet) eqn:Hv; [|eexists; split; [done|left; simpl; set_solver]].
    apply Qltb_lt in Hv.
    destruct (ObjectId _) as [oid|e] eqn:Hoid.
    2:{ pose proof (ObjectId_Raise _ _ Hoid) as ->. eexists. split; [done|by right]. }
    destruct (player db !! oid) as [p|] eqn:Hp.
    2:{ eexists. split; [done|]. left; simpl; set_solver. }
    destruct (Qltb _ _) eqn:Hb.
    { eexists. split; [done|]. left; simpl; set_solver. }
    apply Qltb_ge in Hb. simpl.
    destruct Hbad as [H|[H|[H|H]]]; try done.
    + destruct H as (oid' & ? & ?). simplify_eq.
    + destruct H as (oid' & p' & ? & ? & Hlt). simplify_eq. lra.
  - intros draws new_id data db Hbad. unfold POST_blackjack_start.
    rewrite route_eq.
    destruct (BlackjackStart_valid data) eqn:Hv; [|eexists; split; [done|left; simpl; set_solver]].
    apply Qltb_lt in Hv.
    pose proof (blackjack_start_checks draws new_id data db) as Hc.
    destruct (ObjectId _) as [oid|e] eqn:Hoid.
    2:{ pose proof (ObjectId_Raise _ _ Hoid) as ->. eexists. split; [done|by right]. }
    destruct (player db !! oid) as [p|] eqn:Hp.
    2:{ eexists. split; [done|]. left; simpl; set_solver. }
    destruct Hbad as [H|[H|[H|H]]]; try done.
    + destruct H as (oid' & ? & ?). simplify_eq.
    + destruct H as (oid' & p' & ? & ? & Hlt). simplify_eq.
      eexists. split; [by apply Hc|]. left; simpl; set_solver.
Qed.

Lemma rejected_bets_change_nothing_witness :
  (∃ e,
     POST_bet_roulette 1 (mkRouletteBet alice 100 "red" None) db_poor
       = (Raise e, db_poor)
     ∧ (status_of e ∈ [400; 404; 422]
        ∨ e = InvalidId ∧ ObjectId alice = Raise InvalidId))
  ∧ (∃ e,
       POST_bet_slots 0 1 2 (mkSlotsBet alice 0) db_signup = (Raise e, db_signup)
       ∧ (status_of e ∈ [400; 404; 422]
          ∨ e = InvalidId ∧ ObjectId alice = Raise InvalidId))
  ∧ (∃ e,
       POST_blackjack_start draws_aces table (mkBlackjackStart nobody 100)
         db_signup = (Raise e, db_signup)
       ∧ (status_of e ∈ [400; 404; 422]
          ∨ e = InvalidId ∧ ObjectId nobody = Raise InvalidId)).
Proof.
  destruct rejected_bets_change_nothing as (Hroulette & Hslots & Hstart).
  split; [|split].
  - apply (Hroulette 1%nat (mkRouletteBet alice 100 "red" None) db_poor).
    right; right; right; left.
    exists alice, (mkPlayer "alice" 50%Q 0%Z).
    split; [vm_compute; reflexivity|]. split; [vm_compute; reflexivity|].
    reflexivity.
  - apply (Hslots 0%nat 1%nat 2%nat (mkSlotsBet alice 0) db_signup).
    left. discriminate.
  - apply (Hstart draws_aces table (mkBlackjackStart nobody 100) db_signup).
    right; right; left. exists nobody.
    split; vm_compute; reflexivity.
Defined.

Example insufficient_balance_is_rejected :
  POST_bet_roulette 1 (mkRouletteBet alice 100 "red" None) db_poor
  = (Raise (HTTPException 400 "Insufficient balance"), db_poor)
  ∧ POST_bet_slots 0 1 2 (mkSlotsBet alice 100) db_poor
    = (Raise (HTTPException 400 "Insufficient balance"), db_poor)
  ∧ POST_blackjack_start draws_aces table (mkBlackjackStart alice 100) db_poor
    = (Raise (HTTPException 400 "Insufficient balance"), db_poor).
Proof. split_and!; reflexivity. Qed.

(** * Further properties of the code *)

(** ** The deck *)

(** X1. Whatever the random draws, a new deck is the 52 combinations of a
    rank and a suit in some order: every combination is in it, no card is
    in it twice, and every card has a rank that scores. *)
Theorem new_deck_full_deck (draws : list nat) :
  new_deck draws ≡ₚ fresh_deck
  ∧ length (new_deck draws) = 52%nat
  ∧ NoDup (new_deck draws)
  ∧ Forall valid_card (new_deck draws)
  ∧ ∀ r s : str, r ∈ ranks → s ∈ suits → r ++ s ∈ new_deck draws.
Proof.
  split; [apply new_deck_Permutation|].
  split; [apply new_deck_length|].
  split; [apply new_deck_NoDup|].
  split; [apply new_deck_valid|].
  intros r s Hr Hs. rewrite new_deck_Permutation. unfold fresh_deck.
  apply list_elem_of_bind. exists r. split; [|done].
  apply list_elem_of_bind. exists s. split; [|done].
  by apply list_elem_of_singleton.
Qed.

(** ** Scoring *)

Lemma soft_total_app h1 h2 : soft_total (h1 ++ h2) = soft_total h1 + soft_total h2.
Proof.
  unfold soft_total. rewrite map_app, foldr_app.
  induction (map _ h1) as [|x l IH]; simpl; lia.
Qed.

Lemma count_aces_app h1 h2 :
  count_aces (h1 ++ h2) = (count_aces h1 + count_aces h2)%nat.
Proof. unfold count_aces. by rewrite filter_app, length_app. Qed.

Lemma soft_total_Permutation h1 h2 : h1 ≡ₚ h2 → soft_total h1 = soft_total h2.
Proof.
  unfold soft_total. induction 1 as [|c ? ? ? IH|c d ?|? ? ? ? IH1 ? IH2]; simpl; lia.
Qed.

Lemma count_aces_Permutation h1 h2 : h1 ≡ₚ h2 → count_aces h1 = count_aces h2.
Proof. intros H. unfold count_aces. by rewrite H. Qed.

Lemma hand_value_sum_invalid hand total aces :
  Exists (λ c, ¬ valid_card c) hand →
  hand_value_sum hand total aces = Raise KeyError.
Proof.
  revert total aces. induction hand as [|c hand IH]; intros total aces H.
  - by apply Exists_nil in H.
  - simpl. rewrite getitem_values.
    destruct (rank_value !! rank_of c) as [v|] eqn:Hc; [|done]. simpl.
    apply IH. apply Exists_cons in H as [H|H]; [|done].
    exfalso. apply H. by exists v.
Qed.

Lemma hand_value_KeyError_Ok hand v :
  hand_value hand = Ok v → Forall valid_card hand.
Proof.
  intros H. destruct (decide (Forall valid_card hand)) as [Hv|Hn]; [done|].
  apply not_Forall_Exists in Hn; [|apply _].
  unfold hand_value in H. by rewrite hand_value_sum_invalid in H.
Qed.

(** X2. Scoring succeeds exactly on hands whose every card has a rank of
    the table; any other hand, such as one that holds the placeholder of a
    hidden card, raises [KeyError]. *)
Theorem hand_value_KeyError (hand : list card) :
  match hand_value hand with
  | Ok _ => Forall valid_card hand
  | Raise e => e = KeyError ∧ Exists (λ c, ¬ valid_card c) hand
  end
  ∧ ¬ valid_card hidden_card.
Proof.
  split.
  - destruct (decide (Forall valid_card hand)) as [Hv|Hn].
    + by rewrite hand_value_valid.
    + apply not_Forall_Exists in Hn; [|apply _].
      unfold hand_value. by rewrite hand_value_sum_invalid.
  - intros [v Hv]. vm_compute in Hv. discriminate.
Qed.

(** X3. The order of the cards does not matter to the score. *)
Theorem hand_value_Permutation (hand hand' : list card) :
  hand ≡ₚ hand' → hand_value hand = hand_value hand'.
Proof.
  intros Hp. destruct (decide (Forall valid_card hand)) as [Hv|Hn].
  - assert (Forall valid_card hand') as Hv' by (by rewrite <- Hp).
    rewrite !hand_value_valid by done.
    by rewrite (soft_total_Permutation _ _ Hp), (count_aces_Permutation _ _ Hp).
  - assert (¬ Forall valid_card hand') as Hn' by (by rewrite <- Hp).
    apply not_Forall_Exists in Hn, Hn'; try apply _.
    unfold hand_value. by rewrite !hand_value_sum_invalid.
Qed.

Lemma hand_value_Permutation_witness :
  [lit "A" ++ spades; lit "9" ++ hearts; lit "A" ++ hearts]
    ≡ₚ [lit "9" ++ hearts; lit "A" ++ hearts; lit "A" ++ spades]
  ∧ hand_value [lit "A" ++ spades; lit "9" ++ hearts; lit "A" ++ hearts]
    = hand_value [lit "9" ++ hearts; lit "A" ++ hearts; lit "A" ++ spades].
Proof.
  assert ([lit "A" ++ spades; lit "9" ++ hearts; lit "A" ++ hearts]
            ≡ₚ [lit "9" ++ hearts; lit "A" ++ hearts; lit "A" ++ spades]) as Hp.
  { exact (Permutation_cons_append
             [lit "9" ++ hearts; lit "A" ++ hearts] (lit "A" ++ spades)). }
  split; [exact Hp|]. exact (hand_value_Permutation _ _ Hp).
Defined.

Lemma soft_total_upper hand :
  Forall valid_card hand → soft_total hand ≤ 11 * Z.of_nat (length hand).
Proof.
  induction 1 as [|c hand [v Hc] _ IH].
  - by vm_compute.
  - unfold soft_total in *; simpl length; simpl. rewrite Hc; simpl.
    pose proof (rank_value_range _ _ Hc). lia.
Qed.

(** A hand worth more than 21 counts each of its aces as 1. *)
Lemma hand_value_bust_aces_low hand v :
  Forall valid_card hand → hand_value hand = Ok v → 21 < v →
  v = soft_total hand - 10 * Z.of_nat (count_aces hand).
Proof.
  intros Hv. rewrite hand_value_valid by done. intros [= <-].
  destruct (hand_value_reduce_spec (count_aces hand) (soft_total hand))
    as (k & Hk & -> & Hstop & _).
  intros Hbust.
  destruct (decide (k < count_aces hand)%nat) as [Hlt|Hge]; [|f_equal; lia].
  specialize (Hstop Hlt). lia.
Qed.

(** X4. A hand of [n] valid cards scores at least [n] and at most [11 n]:
    every card counts for one point or more, none for more than eleven. A
    hand worth more than 21 counts each of its aces as 1. *)
Theorem hand_value_bounds (hand : list card) :
  Forall valid_card hand →
  ∃ v,
    hand_value hand = Ok v
    ∧ Z.of_nat (length hand) ≤ v ≤ 11 * Z.of_nat (length hand)
    ∧ (21 < v → v = soft_total hand - 10 * Z.of_nat (count_aces hand)).
Proof.
  intros Hv. pose proof (hand_value_valid hand Hv) as Hval.
  eexists. split; [exact Hval|].
  split; [|by apply hand_value_bust_aces_low].
  destruct (hand_value_reduce_spec (count_aces hand) (soft_total hand))
    as (k & Hk & -> & _).
  pose proof (soft_total_lower hand Hv). pose proof (soft_total_upper hand Hv).
  lia.
Qed.

Lemma hand_value_bounds_witness :
  ∃ v,
    let hand := [lit "K" ++ spades; lit "A" ++ hearts; lit "Q" ++ hearts;
                 lit "A" ++ clubs] in
    hand_value hand = Ok v
    ∧ Z.of_nat (length hand) ≤ v ≤ 11 * Z.of_nat (length hand)
    ∧ (21 < v → v = soft_total hand - 10 * Z.of_nat (count_aces hand)).
Proof.
  apply (hand_value_bounds
           [lit "K" ++ spades; lit "A" ++ hearts; lit "Q" ++ hearts;
            lit "A" ++ clubs]).
  apply (bool_decide_unpack _). vm_compute. exact I.
Defined.

(** X5. A bust is final: once a hand is worth more than 21, every card
    added to it raises its value by one point or more. *)
Theorem bust_stays_bust (hand more : list card) (v : Z) :
  Forall valid_card hand → Forall valid_card more →
  hand_value hand = Ok v → 21 < v →
  ∃ v', hand_value (hand ++ more) = Ok v' ∧ v + Z.of_nat (length more) ≤ v'.
Proof.
  intros Hh Hm Hv Hbust.
  pose proof (hand_value_bust_aces_low hand v Hh Hv Hbust) as Hmin.
  assert (Forall valid_card (hand ++ more)) as Hhm by (by apply Forall_app).
  rewrite hand_value_valid by done. eexists. split; [done|].
  destruct (hand_value_reduce_spec (count_aces (hand ++ more))
              (soft_total (hand ++ more))) as (k & Hk & -> & _).
  rewrite soft_total_app, count_aces_app in *.
  pose proof (soft_total_lower more Hm). lia.
Qed.

Lemma bust_stays_bust_witness :
  ∃ v',
    hand_value ([lit "K" ++ spades; lit "Q" ++ hearts; lit "5" ++ clubs]
                ++ [lit "A" ++ hearts]) = Ok v'
    ∧ 25 + Z.of_nat (length [lit "A" ++ hearts]) ≤ v'.
Proof.
  apply (bust_stays_bust
           [lit "K" ++ spades; lit "Q" ++ hearts; lit "5" ++ clubs]
           [lit "A" ++ hearts] 25).
  - apply (bool_decide_unpack _). vm_compute. exact I.
  - apply (bool_decide_unpack _). vm_compute. exact I.
  - vm_compute. reflexivity.
  - reflexivity.
Defined.

(** X6. Two cards score 21 exactly when one is an ace and the other a ten,
    jack, queen or king. *)
Theorem two_card_21 (c1 c2 : card) :
  valid_card c1 → valid_card c2 →
  hand_value [c1; c2] = Ok 21 ↔
    is_ace c1 ∧ rank_value !! rank_of c2 = Some 10
    ∨ rank_value !! rank_of c1 = Some 10 ∧ is_ace c2.
Proof.
  intros [v1 H1] [v2 H2].
  rewrite hand_value_valid by (repeat constructor; by eexists).
  unfold soft_total. simpl. rewrite H1, H2. simpl.
  rewrite !count_aces_cons. unfold count_aces at 1. simpl.
  pose proof (rank_value_range _ _ H1) as [R1 A1].
  pose proof (rank_value_range _ _ H2) as [R2 A2].
  unfold is_ace in *.
  destruct (decide (rank_of c1 = lit "A")) as [E1|E1];
    destruct (decide (rank_of c2 = lit "A")) as [E2|E2]; simpl.
  - apply A1 in E1 as ->. apply A2 in E2 as ->. simpl.
    split; [discriminate|]. intros [[_ ?]|[? _]]; discriminate.
  - assert (v1 = 11) as -> by (by apply A1).
    assert (v2 ≠ 11) by (intros ->; apply E2; by apply A2).
    assert ((21 <? 11 + (v2 + 0)) = false) as -> by (apply Z.ltb_ge; lia).
    split.
    + intros [= ?]. left. split; [by apply A1|]. f_equal. lia.
    + intros [[_ [= ->]]|[_ ?]]; [done|]. by destruct E2.
  - assert (v2 = 11) as -> by (by apply A2).
    assert (v1 ≠ 11) by (intros ->; apply E1; by apply A1).
    assert ((21 <? v1 + (11 + 0)) = false) as -> by (apply Z.ltb_ge; lia).
    split.
    + intros [= ?]. right. split; [f_equal; lia | by apply A2].
    + intros [[? _]|[[= ->] _]]; [by destruct E1 | done].
  - assert (v1 ≠ 11) by (intros ->; apply E1; by apply A1).
    assert (v2 ≠ 11) by (intros ->; apply E2; by apply A2).
    split; [intros [= ?]; lia|]. intros [[? _]|[_ ?]]; tauto.
Qed.

Lemma two_card_21_witness :
  hand_value [lit "K" ++ clubs; lit "A" ++ spades] = Ok 21 ↔
    is_ace (lit "K" ++ clubs) ∧ rank_value !! rank_of (lit "A" ++ spades) = Some 10
    ∨ rank_value !! rank_of (lit "K" ++ clubs) = Some 10 ∧ is_ace (lit "A" ++ spades).
Proof.
  apply (two_card_21 (lit "K" ++ clubs) (lit "A" ++ spades)).
  - eexists. vm_compute. reflexivity.
  - eexists. vm_compute. reflexivity.
Defined.

(** One more card adds ten points at most to a hand, unless the hand still
    stands at 21 or less with it. *)
Lemma hand_value_snoc_upper hand c v v' :
  Forall valid_card hand → valid_card c →
  hand_value hand = Ok v → hand_value (hand ++ [c]) = Ok v' →
  v' ≤ 21 ∨ v' ≤ v + 10.
Proof.
  intros Hh Hc Hv Hv'.
  destruct (decide (v' ≤ 21)) as [|Hbust]; [by left|]. right.
  assert (Forall valid_card (hand ++ [c])) as Hhc
    by (apply Forall_app; split; [done | by constructor]).
  pose proof (hand_value_bust_aces_low _ _ Hhc Hv' ltac:(lia)) as ->.
  rewrite hand_value_valid in Hv by done. injection Hv as <-.
  destruct (hand_value_reduce_spec (count_aces hand) (soft_total hand))
    as (k & Hk & -> & _).
  rewrite soft_total_app, count_aces_app.
  destruct Hc as [w Hw]. pose proof (rank_value_range _ _ Hw) as [Hr Ha].
  assert (soft_total [c] = w) as ->.
  { unfold soft_total. simpl. rewrite Hw. simpl. lia. }
  rewrite (count_aces_cons c []).
  assert (count_aces [] = 0%nat) as -> by done.
  unfold is_ace. destruct (decide _) as [E|E]; [apply Ha in E | assert (w ≠ 11) by tauto]; lia.
Qed.

(** The dealer ends on 17 to 26 when the hand as dealt was worth 26 or
    less: no card is taken at 17 or more, and a card taken below 17 adds
    ten points at most, or leaves the hand at 21 or less. *)
Lemma dealer_draw_total_range deck hand rest hand' v0 :
  dealer_draw deck hand = Ok (rest, hand') →
  hand_value hand = Ok v0 → v0 ≤ 26 →
  ∃ d_val, hand_value hand' = Ok d_val ∧ 17 ≤ d_val ≤ 26.
Proof.
  intros Hd Hv0 Hle.
  apply dealer_draw_Ok in Hd as (drawn & d_val & _ & -> & Hdv & Hge & Hlt).
  exists d_val. split; [done|]. split; [done|].
  destruct drawn as [|c drawn0 _] using rev_ind.
  - rewrite app_nil_r in Hdv. assert (d_val = v0) by congruence. lia.
  - destruct (Hlt (length drawn0)) as (v & Hv & Hv17).
    { rewrite length_app. simpl. lia. }
    rewrite take_app_length in Hv. rewrite app_assoc in Hdv.
    pose proof (hand_value_KeyError_Ok _ _ Hdv) as Hvalid.
    apply Forall_app in Hvalid as [Hvalid Hc]. apply Forall_inv in Hc.
    destruct (hand_value_snoc_upper _ _ _ _ Hvalid Hc Hv Hdv); lia.
Qed.

(** ** Settlement *)

(** X7. When the dealer's hand on record is worth 26 or less, as any hand
    of two cards is, a settlement that completes reports a dealer total
    from 17 to 26. *)
Theorem settle_blackjack_dealer_total session_id db o db' sid session v0 :
  settle_blackjack session_id db = (Ok o, db') →
  ObjectId session_id = Ok sid →
  blackjacksession db !! sid = Some session →
  hand_value (s_dealer_hand session) = Ok v0 → v0 ≤ 26 →
  17 ≤ o_d_val o ≤ 26.
Proof.
  intros H Hsid Hs Hv0 Hle. apply settle_blackjack_Ok in H
    as (sid' & session' & oid & p & deck' & dealer_hand' & p_val & d_val
        & Hsid' & Hs' & Hoid & Hp & Hd & Hpv & Hdv & -> & _).
  rewrite Hsid in Hsid'. injection Hsid' as <-.
  rewrite Hs in Hs'. injection Hs' as <-. simpl.
  destruct (dealer_draw_total_range _ _ _ _ _ Hd Hv0 Hle) as (d & Hd' & Hrange).
  congruence.
Qed.

Lemma settle_blackjack_dealer_total_witness :
  ∃ o db' session v0,
    settle_blackjack table (db_playing 100) = (Ok o, db')
    ∧ ObjectId table = Ok table
    ∧ blackjacksession (db_playing 100) !! table = Some session
    ∧ hand_value (s_dealer_hand session) = Ok v0 ∧ v0 ≤ 26
    ∧ 17 ≤ o_d_val o ≤ 26.
Proof.
  eexists _, _, _, 12.
  split; [vm_compute; reflexivity|]. split; [vm_compute; reflexivity|].
  split; [vm_compute; reflexivity|]. split; [vm_compute; reflexivity|].
  split; [lia|].
  eapply (settle_blackjack_dealer_total table (db_playing 100) _ _ table _ 12).
  - vm_compute; reflexivity.
  - vm_compute; reflexivity.
  - vm_compute; reflexivity.
  - vm_compute; reflexivity.
  - lia.
Defined.

(** X8. A settlement that raises has written nothing. A session id that is
    on no record is answered 404, one that is no ObjectId raises
    [InvalidId]. *)
Theorem settle_blackjack_failure session_id db :
  (∀ e db', settle_blackjack session_id db = (Raise e, db') → db' = db)
  ∧ (∀ sid, ObjectId session_id = Ok sid →
       blackjacksession db !! sid = None →
       settle_blackjack session_id db
       = (Raise (HTTPException 404 "Session not found"), db))
  ∧ (∀ e, ObjectId session_id = Raise e →
       settle_blackjack session_id db = (Raise InvalidId, db)).
Proof.
  split_and!.
  - intros e db'. apply settle_blackjack_Raise.
  - intros sid Hsid Hs. unfold settle_blackjack. unfold_handler.
    by rewrite Hsid, Hs.
  - intros e Hsid. pose proof (ObjectId_Raise _ _ Hsid) as ->.
    unfold settle_blackjack. unfold_handler. by rewrite Hsid.
Qed.

Lemma settle_blackjack_failure_witness :
  settle_blackjack nobody (db_playing 100)
  = (Raise (HTTPException 404 "Session not found"), db_playing 100)
  ∧ settle_blackjack "table" (db_playing 100) = (Raise InvalidId, db_playing 100)
  ∧ ∀ e db', settle_blackjack table db_poor = (Raise e, db') → db' = db_poor.
Proof.
  split; [|split].
  - apply (proj1 (proj2 (settle_blackjack_failure nobody (db_playing 100))) nobody).
    + vm_compute; reflexivity.
    + vm_compute; reflexivity.
  - apply (proj2 (proj2 (settle_blackjack_failure "table" (db_playing 100))) InvalidId).
    vm_compute; reflexivity.
  - exact (proj1 (settle_blackjack_failure table db_poor)).
Defined.

(** X9. A settlement that completes changes one balance, one session and
    the history, and nothing else. The player keeps name and level, every
    other player is left alone; the session keeps its player, bet and
    player hand and becomes finished with the dealer's final hand, every
    other session is left alone; one record is added to the history, with
    the game, the bet, the result, the hands and the totals. *)
Theorem settle_blackjack_frame session_id db o db' :
  settle_blackjack session_id db = (Ok o, db') →
  ∃ sid session oid p p' s' h,
    ObjectId session_id = Ok sid
    ∧ blackjacksession db !! sid = Some session
    ∧ ObjectId (s_player_id session) = Ok oid
    ∧ player db !! oid = Some p
    ∧ player db' !! oid = Some p'
    ∧ nickname p' = nickname p ∧ vip_level p' = vip_level p
    ∧ balance p' = o_balance o
    ∧ (∀ oid', oid' ≠ oid → player db' !! oid' = player db !! oid')
    ∧ blackjacksession db' !! sid = Some s'
    ∧ s_player_id s' = s_player_id session
    ∧ s_bet s' = s_bet session
    ∧ s_player_hand s' = s_player_hand session
    ∧ s_dealer_hand s' = o_dealer_hand o
    ∧ s_status s' = "finished"
    ∧ (∀ sid', sid' ≠ sid →
         blackjacksession db' !! sid' = blackjacksession db !! sid')
    ∧ bethistory db' = bethistory db ++ [h]
    ∧ bh_game h = "blackjack"
    ∧ bh_player_id h = s_player_id session
    ∧ bh_amount h = s_bet session
    ∧ bh_result h = o_result o
    ∧ bh_payout h = o_payout o
    ∧ bh_metadata h
      = BlackjackMeta (o_player_hand o) (o_dealer_hand o) (o_p_val o) (o_d_val o).
Proof.
  intros H. apply settle_blackjack_Ok in H
    as (sid & session & oid & p & deck' & dealer_hand' & p_val & d_val
        & Hsid & Hs & Hoid & Hp & Hd & Hpv & Hdv & -> & ->).
  eexists sid, session, oid, p, _, _, _. simpl.
  split; [done|]. split; [done|]. split; [done|]. split; [done|].
  split; [by rewrite lookup_alter_eq, Hp|]. simpl.
  do 3 (split; [done|]).
  split; [intros oid' Hne; by rewrite lookup_alter_ne|].
  split; [by rewrite lookup_alter_eq, Hs|]. simpl.
  do 5 (split; [done|]).
  split; [intros sid' Hne; by rewrite lookup_alter_ne|].
  by split_and!.
Qed.

Lemma settle_blackjack_frame_witness :
  ∃ o db',
    settle_blackjack table (db_playing 100) = (Ok o, db')
    ∧ ∃ sid session oid p p' s' h,
        ObjectId table = Ok sid
        ∧ blackjacksession (db_playing 100) !! sid = Some session
        ∧ ObjectId (s_player_id session) = Ok oid
        ∧ player (db_playing 100) !! oid = Some p
        ∧ player db' !! oid = Some p'
        ∧ nickname p' = nickname p ∧ vip_level p' = vip_level p
        ∧ balance p' = o_balance o
        ∧ (∀ oid', oid' ≠ oid → player db' !! oid' = player (db_playing 100) !! oid')
        ∧ blackjacksession db' !! sid = Some s'
        ∧ s_player_id s' = s_player_id session
        ∧ s_bet s' = s_bet session
        ∧ s_player_hand s' = s_player_hand session
        ∧ s_dealer_hand s' = o_dealer_hand o
        ∧ s_status s' = "finished"
        ∧ (∀ sid', sid' ≠ sid →
             blackjacksession db' !! sid'
             = blackjacksession (db_playing 100) !! sid')
        ∧ bethistory db' = bethistory (db_playing 100) ++ [h]
        ∧ bh_game h = "blackjack"
        ∧ bh_player_id h = s_player_id session
        ∧ bh_amount h = s_bet session
        ∧ bh_result h = o_result o
        ∧ bh_payout h = o_payout o
        ∧ bh_metadata h
          = BlackjackMeta (o_player_hand o) (o_dealer_hand o) (o_p_val o)
              (o_d_val o).
Proof.
  eexists _, _. split; [vm_compute; reflexivity|].
  apply (settle_blackjack_frame table (db_playing 100)).
  vm_compute; reflexivity.
Defined.

Lemma settle_rules_names p_val d_val player_hand dealer_hand bet :
  (settle_rules p_val d_val player_hand dealer_hand bet).2
  ∈ ["player_bust"; "dealer_bust"; "player_blackjack"; "dealer_blackjack";
     "player_win"; "dealer_win"; "push"].
Proof. unfold settle_rules. repeat case_match; simpl; set_solver. Qed.

Lemma settle_rules_upper p_val d_val player_hand dealer_hand bet :
  (0 <= bet)%Q →
  ((settle_rules p_val d_val player_hand dealer_hand bet).1 <= bet * 1.5)%Q.
Proof. intros Hb. unfold settle_rules. repeat case_match; simpl; lra. Qed.

(** X10. A settlement that completes names one of seven results, reports
    the status finished and the player's hand as it was on record, and
    pays between minus the bet and one and a half times the bet. *)
Theorem settle_blackjack_outcome session_id db o db' :
  settle_blackjack session_id db = (Ok o, db') →
  ∃ sid session payout,
    ObjectId session_id = Ok sid
    ∧ blackjacksession db !! sid = Some session
    ∧ o_player_hand o = s_player_hand session
    ∧ o_status o = "finished"
    ∧ o_result o
      ∈ ["player_bust"; "dealer_bust"; "player_blackjack"; "dealer_blackjack";
         "player_win"; "dealer_win"; "push"]
    ∧ o_payout o = round2 payout
    ∧ ((0 <= s_bet session)%Q →
       (- s_bet session <= payout)%Q ∧ (payout <= s_bet session * 1.5)%Q).
Proof.
  intros H. apply settle_blackjack_Ok in H
    as (sid & session & oid & p & deck' & dealer_hand' & p_val & d_val
        & Hsid & Hs & Hoid & Hp & Hd & Hpv & Hdv & -> & _).
  eexists sid, session, _. simpl.
  do 4 (split; [done|]). split; [apply settle_rules_names|].
  split; [done|]. intros Hb.
  split; [by apply settle_rules_lower | by apply settle_rules_upper].
Qed.

Lemma settle_blackjack_outcome_witness :
  ∃ o db',
    settle_blackjack table (db_playing 100) = (Ok o, db')
    ∧ ∃ sid session payout,
        ObjectId table = Ok sid
        ∧ blackjacksession (db_playing 100) !! sid = Some session
        ∧ o_player_hand o = s_player_hand session
        ∧ o_status o = "finished"
        ∧ o_result o
          ∈ ["player_bust"; "dealer_bust"; "player_blackjack";
             "dealer_blackjack"; "player_win"; "dealer_win"; "push"]
        ∧ o_payout o = round2 payout
        ∧ ((0 <= s_bet session)%Q →
           (- s_bet session <= payout)%Q ∧ (payout <= s_bet session * 1.5)%Q).
Proof.
  eexists _, _. split; [vm_compute; reflexivity|].
  eapply (settle_blackjack_outcome table (db_playing 100)).
  vm_compute; reflexivity.
Defined.

(** ** Hitting *)

Lemma blackjack_hit_eq data db :
  blackjack_hit data db =
    match ObjectId (ba_session_id data) with
    | Raise e => (Raise e, db)
    | Ok sid =>
        match blackjacksession db !! sid with
        | None => (Raise (HTTPException 404 "Session not found"), db)
        | Some session =>
            if decide (s_status session ≠ "playing") then
              match settle_blackjack (ba_session_id data) db with
              | (Ok o, db') => (Ok (Settled None o), db')
              | (Raise e, db') => (Raise e, db')
              end
            else
              match pop (s_deck session) with
              | Raise e => (Raise e, db)
              | Ok popped =>
                  let player_hand := s_player_hand session ++ [popped.1] in
                  let db1 :=
                    mkDB (player db)
                      (alter (λ s, mkSession (s_player_id s) (s_bet s) popped.2
                                     player_hand (s_dealer_hand s) (s_status s))
                         sid (blackjacksession db))
                      (bethistory db) in
                  match hand_value player_hand with
                  | Raise e => (Raise e, db1)
                  | Ok v =>
                      if 21 <? v then
                        match settle_blackjack (ba_session_id data) db1 with
                        | (Ok o, db') => (Ok (Settled None o), db')
                        | (Raise e, db') => (Raise e, db')
                        end
                      else
                        match s_dealer_hand session with
                        | [] => (Raise IndexError, db1)
                        | d0 :: _ =>
                            (Ok (Playing (ba_session_id data) player_hand
                                   [d0; hidden_card] "playing"), db1)
                        end
                  end
              end
        end
    end.
Proof.
  unfold blackjack_hit. unfold_handler.
  destruct (ObjectId _) as [sid|]; [|done].
  destruct (blackjacksession db !! sid) as [session|]; [|done].
  destruct (decide _).
  { by destruct (settle_blackjack _ db) as [[o|e] db']. }
  destruct (pop _) as [popped|]; [|done]. simpl.
  destruct (hand_value _) as [v|]; [|done]. simpl.
  destruct (21 <? v).
  { by destruct (settle_blackjack _ _) as [[o|e] db']. }
  unfold index. by destruct (s_dealer_hand session).
Qed.

(** X11. A hit on an open hand that does not bust takes the top card of
    the deck into the player's hand and nothing else: the session keeps
    its dealer hand, bet and status, other sessions, the balances and the
    history stay as they are, and the answer shows the dealer's first card
    beside a hidden one. *)
Theorem blackjack_hit_playing data db sid session rest c v d0 ds :
  ObjectId (ba_session_id data) = Ok sid →
  blackjacksession db !! sid = Some session →
  s_status session = "playing" →
  s_deck session = rest ++ [c] →
  hand_value (s_player_hand session ++ [c]) = Ok v → v ≤ 21 →
  s_dealer_hand session = d0 :: ds →
  ∃ db',
    blackjack_hit data db
    = (Ok (Playing (ba_session_id data) (s_player_hand session ++ [c])
             [d0; hidden_card] "playing"), db')
    ∧ blackjacksession db' !! sid
      = Some (mkSession (s_player_id session) (s_bet session) rest
                (s_player_hand session ++ [c]) (s_dealer_hand session)
                "playing")
    ∧ (∀ sid', sid' ≠ sid →
         blackjacksession db' !! sid' = blackjacksession db !! sid')
    ∧ player db' = player db
    ∧ bethistory db' = bethistory db.
Proof.
  intros Hsid Hs Hst Hdeck Hv Hle Hdh.
  rewrite blackjack_hit_eq, Hsid, Hs.
  rewrite decide_False by (intros H; by apply H).
  rewrite Hdeck, pop_snoc. simpl. rewrite Hv.
  assert ((21 <? v) = false) as -> by (apply Z.ltb_ge; lia).
  rewrite Hdh. eexists. split; [done|]. simpl.
  split; [rewrite lookup_alter_eq, Hs; simpl; by rewrite Hst, Hdh|].
  split; [intros sid' Hne; by rewrite lookup_alter_ne|]. done.
Qed.

(** X12. A hit on an open hand that busts settles the hand at once: the
    result is [player_bust], the bet is taken from the balance and the
    session is finished. *)
Theorem blackjack_hit_bust data db sid session rest c v oid p :
  ObjectId (ba_session_id data) = Ok sid →
  blackjacksession db !! sid = Some session →
  s_status session = "playing" →
  s_deck session = rest ++ [c] →
  hand_value (s_player_hand session ++ [c]) = Ok v → 21 < v →
  ObjectId (s_player_id session) = Ok oid →
  player db !! oid = Some p →
  Forall valid_card rest →
  Forall valid_card (s_dealer_hand session) →
  (17 ≤ length rest + length (s_dealer_hand session))%nat →
  ∃ o db',
    blackjack_hit data db = (Ok (Settled None o), db')
    ∧ o_result o = "player_bust"
    ∧ o_player_hand o = s_player_hand session ++ [c]
    ∧ o_p_val o = v
    ∧ o_payout o = round2 (- s_bet session)
    ∧ o_balance o = round2 (balance p + - s_bet session)
    ∧ balance <$> player db' !! oid = Some (o_balance o)
    ∧ s_status <$> blackjacksession db' !! sid = Some "finished".
Proof.
  intros Hsid Hs Hst Hdeck Hv Hbust Hoid Hp Hrest Hdealer Hlen.
  rewrite blackjack_hit_eq, Hsid, Hs.
  rewrite decide_False by (intros H; by apply H).
  rewrite Hdeck, pop_snoc. simpl. rewrite Hv.
  assert ((21 <? v) = true) as Hltb by (by apply Z.ltb_lt). rewrite Hltb.
  destruct (dealer_draw_total _ _ Hrest Hdealer Hlen) as (deck' & hand' & Hd).
  destruct (dealer_draw_Ok _ _ _ _ Hd) as (drawn & d_val & _ & _ & Hdv & _).
  set (session1 := mkSession (s_player_id session) (s_bet session) rest
                     (s_player_hand session ++ [c]) (s_dealer_hand session)
                     (s_status session)).
  set (db1 := mkDB _ _ _).
  assert (blackjacksession db1 !! sid = Some session1) as Hs1.
  { unfold db1. simpl. by rewrite lookup_alter_eq, Hs. }
  rewrite (settle_blackjack_run (ba_session_id data) db1 sid session1 oid p
             deck' hand' v d_val Hsid Hs1 Hoid Hp Hd Hv Hdv).
  eexists _, _. split; [done|]. simpl.
  unfold settle_rules. rewrite Hltb. simpl.
  split_and!; try done.
  - by rewrite lookup_alter_eq, Hp.
  - by rewrite lookup_alter_eq, lookup_alter_eq, Hs.
Qed.

(** X13. Once a settlement has finished a session, a stand and a hit on it
    both settle it again. Neither draws a card, and both report the
    hands, totals, result and payout of the first settlement; both add the
    payout to the balance once more and write one more history record. *)
Theorem finished_session_settles_again session_id db o db' :
  settle_blackjack session_id db = (Ok o, db') →
  ∃ o' db'' payout,
    blackjack_stand (mkBlackjackAction session_id) db' = (Ok o', db'')
    ∧ blackjack_hit (mkBlackjackAction session_id) db'
      = (Ok (Settled None o'), db'')
    ∧ o_player_hand o' = o_player_hand o
    ∧ o_dealer_hand o' = o_dealer_hand o
    ∧ o_p_val o' = o_p_val o ∧ o_d_val o' = o_d_val o
    ∧ o_result o' = o_result o
    ∧ o_payout o' = o_payout o
    ∧ blackjacksession db'' = blackjacksession db'
    ∧ o_payout o = round2 payout
    ∧ o_balance o' = round2 (o_balance o + payout)
    ∧ length (bethistory db'') = S (length (bethistory db')).
Proof.
  intros H.
  destruct (settle_blackjack_again _ _ _ _ H)
    as (o' & db'' & oid & p' & Hagain & Hph & Hdh & Hpv & Hdv & Hres & Hpay
        & Hsess & _ & _ & (payout & Hround & Hbal) & Hlen).
  exists o', db'', payout. unfold blackjack_stand. simpl.
  split; [done|]. split; [|by split_and!].
  apply settle_blackjack_Ok in H
    as (sid & session & ? & ? & deck' & dealer_hand' & ? & ? & Hsid & Hs & _ & _
        & _ & _ & _ & _ & ->).
  rewrite blackjack_hit_eq. simpl. rewrite Hsid. simpl.
  rewrite lookup_alter_eq, Hs. simpl.
  by rewrite Hagain.
Qed.

(** X14. A hit that cannot be served changes nothing: a session id on no
    record is answered 404, one that is no ObjectId raises [InvalidId],
    and an open hand whose deck is empty raises [IndexError]. *)
Theorem blackjack_hit_failure data db :
  (∀ sid, ObjectId (ba_session_id data) = Ok sid →
     blackjacksession db !! sid = None →
     blackjack_hit data db
     = (Raise (HTTPException 404 "Session not found"), db))
  ∧ (∀ e, ObjectId (ba_session_id data) = Raise e →
       blackjack_hit data db = (Raise InvalidId, db))
  ∧ (∀ sid session, ObjectId (ba_session_id data) = Ok sid →
       blackjacksession db !! sid = Some session →
       s_status session = "playing" → s_deck session = [] →
       blackjack_hit data db = (Raise IndexError, db)).
Proof.
  split_and!.
  - intros sid Hsid Hs. by rewrite blackjack_hit_eq, Hsid, Hs.
  - intros e Hsid. pose proof (ObjectId_Raise _ _ Hsid) as ->.
    by rewrite blackjack_hit_eq, Hsid.
  - intros sid session Hsid Hs Hst Hdeck.
    rewrite blackjack_hit_eq, Hsid, Hs.
    rewrite decide_False by (intros H; by apply H). by rewrite Hdeck.
Qed.

Lemma blackjack_hit_playing_witness :
  ∃ db',
    blackjack_hit (mkBlackjackAction table) (db_playing 100)
    = (Ok (Playing table
             ([lit "A" ++ spades; lit "A" ++ hearts] ++ [lit "2" ++ spades])
             [lit "A" ++ diamonds; hidden_card] "playing"), db')
    ∧ player db' = player (db_playing 100)
    ∧ bethistory db' = bethistory (db_playing 100).
Proof.
  destruct (blackjack_hit_playing (mkBlackjackAction table) (db_playing 100)
              table
              (mkSession alice 100 (take 48 (new_deck draws_aces))
                 [lit "A" ++ spades; lit "A" ++ hearts]
                 [lit "A" ++ diamonds; lit "A" ++ clubs] "playing")
              (take 47 (new_deck draws_aces)) (lit "2" ++ spades) 14
              (lit "A" ++ diamonds) [lit "A" ++ clubs])
    as (db' & Hhit & _ & _ & Hplayer & Hhistory).
  - vm_compute; reflexivity.
  - vm_compute; reflexivity.
  - reflexivity.
  - vm_compute; reflexivity.
  - vm_compute; reflexivity.
  - lia.
  - reflexivity.
  - exists db'. split; [exact Hhit|]. split; [exact Hplayer | exact Hhistory].
Defined.

Lemma blackjack_hit_bust_witness :
  ∃ o db',
    blackjack_hit (mkBlackjackAction table) (db_hit 7 100)
    = (Ok (Settled None o), db')
    ∧ o_result o = "player_bust"
    ∧ o_p_val o = 22
    ∧ o_payout o = round2 (- 100)
    ∧ balance <$> player db' !! alice = Some (o_balance o)
    ∧ s_status <$> blackjacksession db' !! table = Some "finished".
Proof.
  destruct (blackjack_hit_bust (mkBlackjackAction table) (db_hit 7 100) table
              (mkSession alice 100 (take 41 (new_deck draws_aces))
                 [lit "A" ++ spades; lit "A" ++ hearts; lit "2" ++ spades;
                  lit "2" ++ hearts; lit "2" ++ diamonds; lit "2" ++ clubs;
                  lit "3" ++ spades; lit "3" ++ hearts; lit "3" ++ diamonds]
                 [lit "A" ++ diamonds; lit "A" ++ clubs] "playing")
              (take 40 (new_deck draws_aces)) (lit "3" ++ clubs) 22
              alice (mkPlayer "alice" 1000 0))
    as (o & db' & Hhit & Hres & _ & Hpv & Hpay & _ & Hbal & Hst).
  - vm_compute; reflexivity.
  - vm_compute; reflexivity.
  - reflexivity.
  - vm_compute; reflexivity.
  - vm_compute; reflexivity.
  - lia.
  - vm_compute; reflexivity.
  - vm_compute; reflexivity.
  - apply (bool_decide_unpack _). vm_compute. exact I.
  - apply (bool_decide_unpack _). vm_compute. exact I.
  - vm_compute. lia.
  - exists o, db'. split; [exact Hhit|]. split; [exact Hres|].
    split; [exact Hpv|]. split; [exact Hpay|]. split; [exact Hbal | exact Hst].
Defined.

Lemma finished_session_settles_again_witness :
  ∃ o db',
    settle_blackjack table (db_playing 100) = (Ok o, db')
    ∧ ∃ o' db'' payout,
        blackjack_stand (mkBlackjackAction table) db' = (Ok o', db'')
        ∧ blackjack_hit (mkBlackjackAction table) db'
          = (Ok (Settled None o'), db'')
        ∧ o_player_hand o' = o_player_hand o
        ∧ o_dealer_hand o' = o_dealer_hand o
        ∧ o_p_val o' = o_p_val o ∧ o_d_val o' = o_d_val o
        ∧ o_result o' = o_result o
        ∧ o_payout o' = o_payout o
        ∧ blackjacksession db'' = blackjacksession db'
        ∧ o_payout o = round2 payout
        ∧ o_balance o' = round2 (o_balance o + payout)
        ∧ length (bethistory db'') = S (length (bethistory db')).
Proof.
  eexists _, _. split; [vm_compute; reflexivity|].
  apply (finished_session_settles_again table (db_playing 100)).
  vm_compute; reflexivity.
Defined.

Lemma blackjack_hit_failure_witness :
  blackjack_hit (mkBlackjackAction nobody) (db_playing 100)
  = (Raise (HTTPException 404 "Session not found"), db_playing 100)
  ∧ blackjack_hit (mkBlackjackAction "table") (db_playing 100)
    = (Raise InvalidId, db_playing 100)
  ∧ blackjack_hit (mkBlackjackAction table) db_empty_deck
    = (Raise IndexError, db_empty_deck).
Proof.
  split; [|split].
  - apply (proj1 (blackjack_hit_failure (mkBlackjackAction nobody)
                    (db_playing 100)) nobody).
    + vm_compute; reflexivity.
    + vm_compute; reflexivity.
  - apply (proj1 (proj2 (blackjack_hit_failure (mkBlackjackAction "table")
                           (db_playing 100))) InvalidId).
    vm_compute; reflexivity.
  - eapply (proj2 (proj2 (blackjack_hit_failure (mkBlackjackAction table)
                            db_empty_deck)) table).
    + vm_compute; reflexivity.
    + vm_compute; reflexivity.
    + reflexivity.
    + reflexivity.
Defined.

(** ** Starting a hand, again *)

Lemma last_four {A} (l : list A) :
  (4 ≤ length l)%nat → ∃ r a b c d, l = r ++ [a; b; c; d].
Proof.
  intros Hlen. rewrite <- (take_drop (length l - 4) l).
  assert (length (drop (length l - 4) l) = 4%nat) as H4
    by (rewrite length_drop; lia).
  destruct (drop _ l) as [|a [|b [|c [|d [|? ?]]]]]; try done. eauto 6.
Qed.

Lemma pop_four {A} (r : list A) a b c d :
  pop (r ++ [a; b; c; d]) = Ok (d, r ++ [a; b; c])
  ∧ pop (r ++ [a; b; c]) = Ok (c, r ++ [a; b])
  ∧ pop (r ++ [a; b]) = Ok (b, r ++ [a])
  ∧ pop (r ++ [a]) = Ok (a, r).
Proof.
  split_and!.
  - replace (r ++ [a; b; c; d]) with ((r ++ [a; b; c]) ++ [d])
      by (by rewrite <- app_assoc).
    apply pop_snoc.
  - replace (r ++ [a; b; c]) with ((r ++ [a; b]) ++ [c])
      by (by rewrite <- app_assoc).
    apply pop_snoc.
  - replace (r ++ [a; b]) with ((r ++ [a]) ++ [b])
      by (by rewrite <- app_assoc).
    apply pop_snoc.
  - apply pop_snoc.
Qed.

(** What [blackjack_start] does once the player is found and has the
    funds, on a deck whose last four cards are [d1; d0; c2; c1]. *)
Lemma blackjack_start_deal draws new_id data db oid p deck c1 c2 d0 d1
    p_val d_val :
  ObjectId (bs_player_id data) = Ok oid →
  player db !! oid = Some p →
  (bs_amount data <= balance p)%Q →
  new_deck draws = deck ++ [d1; d0; c2; c1] →
  hand_value [c1; c2] = Ok p_val →
  hand_value [d0; d1] = Ok d_val →
  let session :=
    mkSession (bs_player_id data) (bs_amount data) deck [c1; c2] [d0; d1]
      "playing" in
  let db1 :=
    mkDB (player db) (<[new_id := session]> (blackjacksession db))
      (bethistory db) in
  blackjack_start draws new_id data db =
    if (p_val =? 21) || (d_val =? 21) then
      match settle_blackjack new_id db1 with
      | (Ok o, db') => (Ok (Settled (Some new_id) o), db')
      | (Raise e, db') => (Raise e, db')
      end
    else (Ok (Playing new_id [c1; c2] [d0; hidden_card] "playing"), db1).
Proof.
  intros Hoid Hp Hle Hdeck Hpv Hdv. simpl.
  unfold blackjack_start. unfold_handler. rewrite Hoid, Hp.
  apply Qltb_ge in Hle. rewrite Hle, Hdeck.
  destruct (pop_four deck d1 d0 c2 c1) as (P1 & P2 & P3 & P4).
  rewrite P1. simpl. rewrite P2. simpl. rewrite P3. simpl. rewrite P4. simpl.
  rewrite Hpv, Hdv. simpl.
  destruct (_ || _); [|done].
  by destruct (settle_blackjack _ _) as [[o|e] db'].
Qed.

(** X15. A start that is answered with an open hand has dealt the last
    four cards of the shuffled deck, the first two popped to the player
    and the next two to the dealer, and has put the session on record with
    the stake as its bet. Neither hand is worth 21, the answer hides the
    dealer's second card, and balances and history are untouched. *)
Theorem blackjack_start_playing draws new_id data db session_id player_hand
    dealer_view status db' :
  blackjack_start draws new_id data db
  = (Ok (Playing session_id player_hand dealer_view status), db') →
  ∃ deck c1 c2 d0 d1 p_val d_val,
    new_deck draws = deck ++ [d1; d0; c2; c1]
    ∧ session_id = new_id ∧ status = "playing"
    ∧ player_hand = [c1; c2]
    ∧ dealer_view = [d0; hidden_card]
    ∧ hand_value [c1; c2] = Ok p_val ∧ p_val ≠ 21
    ∧ hand_value [d0; d1] = Ok d_val ∧ d_val ≠ 21
    ∧ blackjacksession db' !! new_id
      = Some (mkSession (bs_player_id data) (bs_amount data) deck [c1; c2]
                [d0; d1] "playing")
    ∧ (∀ sid, sid ≠ new_id →
         blackjacksession db' !! sid = blackjacksession db !! sid)
    ∧ player db' = player db
    ∧ bethistory db' = bethistory db.
Proof.
  intros H.
  destruct (last_four (new_deck draws)) as (deck & d1 & d0 & c2 & c1 & Hdeck).
  { rewrite new_deck_length. lia. }
  pose proof (new_deck_valid draws) as Hvalid. rewrite Hdeck in Hvalid.
  apply Forall_app in Hvalid as [_ Hvalid].
  assert (Forall valid_card [c1; c2]) as Hpv.
  { repeat constructor; eapply Forall_forall; try exact Hvalid; set_solver. }
  assert (Forall valid_card [d0; d1]) as Hdv.
  { repeat constructor; eapply Forall_forall; try exact Hvalid; set_solver. }
  apply hand_value_valid in Hpv, Hdv.
  pose proof H as H'. apply blackjack_start_Ok in H'
    as (oid & p & _ & Hoid & Hp & Hle & _).
  rewrite (blackjack_start_deal _ _ _ _ _ _ _ _ _ _ _ _ _ Hoid Hp Hle Hdeck
             Hpv Hdv) in H.
  destruct (_ || _) eqn:Hnat.
  { by destruct (settle_blackjack _ _) as [[o|e] db'']. }
  apply orb_false_elim in Hnat as [Hn1%Z.eqb_neq Hn2%Z.eqb_neq].
  injection H as <- <- <- <- <-.
  eexists deck, c1, c2, d0, d1, _, _. simpl.
  split_and!; try done.
  - by rewrite lookup_insert_eq.
  - intros sid Hne. by rewrite lookup_insert_ne.
Qed.

Lemma blackjack_start_playing_witness :
  ∃ dealer_view db',
    blackjack_start draws_aces table (mkBlackjackStart alice 100) db_signup
    = (Ok (Playing table [lit "A" ++ spades; lit "A" ++ hearts] dealer_view
             "playing"), db')
    ∧ ∃ deck c1 c2 d0 d1 p_val d_val,
        new_deck draws_aces = deck ++ [d1; d0; c2; c1]
        ∧ table = table ∧ "playing" = "playing"
        ∧ [lit "A" ++ spades; lit "A" ++ hearts] = [c1; c2]
        ∧ dealer_view = [d0; hidden_card]
        ∧ hand_value [c1; c2] = Ok p_val ∧ p_val ≠ 21
        ∧ hand_value [d0; d1] = Ok d_val ∧ d_val ≠ 21
        ∧ blackjacksession db' !! table
          = Some (mkSession alice 100 deck [c1; c2] [d0; d1] "playing")
        ∧ (∀ sid, sid ≠ table →
             blackjacksession db' !! sid = blackjacksession db_signup !! sid)
        ∧ player db' = player db_signup
        ∧ bethistory db' = bethistory db_signup.
Proof.
  eexists _, _. split; [vm_compute; reflexivity|].
  apply (blackjack_start_playing draws_aces table (mkBlackjackStart alice 100)
           db_signup).
  vm_compute; reflexivity.
Defined.

(** X16. For a player on record whose balance covers the stake, a start
    never fails. It answers with a settled hand when the player's two cards
    or the dealer's two cards are worth 21, and the session is then
    finished; it answers with an open hand otherwise. *)
Theorem blackjack_start_accepts draws new_id data db oid p :
  ObjectId (bs_player_id data) = Ok oid →
  player db !! oid = Some p →
  (bs_amount data <= balance p)%Q →
  ObjectId new_id = Ok new_id →
  ∃ r db' deck c1 c2 d0 d1 p_val d_val,
    blackjack_start draws new_id data db = (Ok r, db')
    ∧ new_deck draws = deck ++ [d1; d0; c2; c1]
    ∧ hand_value [c1; c2] = Ok p_val
    ∧ hand_value [d0; d1] = Ok d_val
    ∧ if decide (p_val = 21 ∨ d_val = 21) then
        ∃ o, r = Settled (Some new_id) o
             ∧ o_player_hand o = [c1; c2]
             ∧ s_status <$> blackjacksession db' !! new_id = Some "finished"
      else r = Playing new_id [c1; c2] [d0; hidden_card] "playing".
Proof.
  intros Hoid Hp Hle Hid.
  destruct (last_four (new_deck draws)) as (deck & d1 & d0 & c2 & c1 & Hdeck).
  { rewrite new_deck_length. lia. }
  pose proof (new_deck_valid draws) as Hvalid.
  pose proof (new_deck_length draws) as Hlen.
  rewrite Hdeck in Hvalid, Hlen. rewrite length_app in Hlen. simpl in Hlen.
  apply Forall_app in Hvalid as [Hvdeck Hvalid].
  assert (Forall valid_card [c1; c2]) as Hvp.
  { repeat constructor; eapply Forall_forall; try exact Hvalid; set_solver. }
  assert (Forall valid_card [d0; d1]) as Hvd.
  { repeat constructor; eapply Forall_forall; try exact Hvalid; set_solver. }
  pose proof (hand_value_valid _ Hvp) as Hpv.
  pose proof (hand_value_valid _ Hvd) as Hdv.
  rewrite (blackjack_start_deal _ _ _ _ _ _ _ _ _ _ _ _ _ Hoid Hp Hle Hdeck
             Hpv Hdv).
  set (session := mkSession _ _ _ _ _ _). set (db1 := mkDB _ _ _).
  remember (hand_value_reduce (count_aces [c1; c2]) (soft_total [c1; c2]))
    as p_val eqn:Ep.
  remember (hand_value_reduce (count_aces [d0; d1]) (soft_total [d0; d1]))
    as d_val eqn:Ed.
  destruct (decide (p_val = 21 ∨ d_val = 21)) as [Hnat|Hnot].
  - assert ((p_val =? 21) || (d_val =? 21) = true) as ->.
    { apply orb_true_iff. destruct Hnat as [->| ->]; [by left | by right]. }
    destruct (dealer_draw_total deck [d0; d1]) as (deck' & hand' & Hd);
      [done | done | simpl; lia |].
    destruct (dealer_draw_Ok _ _ _ _ Hd) as (? & dv & _ & _ & Hdv' & _).
    assert (blackjacksession db1 !! new_id = Some session) as Hs1.
    { unfold db1. simpl. by rewrite lookup_insert_eq. }
    rewrite (settle_blackjack_run new_id db1 new_id session oid p deck' hand'
               _ dv Hid Hs1 Hoid Hp Hd Hpv Hdv').
    eexists _, _, deck, c1, c2, d0, d1, p_val, d_val.
    do 4 (split; [done|]). rewrite decide_True by done.
    eexists. split; [done|]. split; [done|].
    simpl. by rewrite lookup_alter_eq, lookup_insert_eq.
  - assert ((p_val =? 21) || (d_val =? 21) = false) as ->.
    { apply orb_false_iff. split; apply Z.eqb_neq; tauto. }
    eexists _, _, deck, c1, c2, d0, d1, p_val, d_val.
    do 4 (split; [done|]). by rewrite decide_False.
Qed.

Lemma blackjack_start_accepts_witness :
  ∃ r db' deck c1 c2 d0 d1 p_val d_val,
    blackjack_start draws_natural table (mkBlackjackStart alice 100) db_signup
    = (Ok r, db')
    ∧ new_deck draws_natural = deck ++ [d1; d0; c2; c1]
    ∧ hand_value [c1; c2] = Ok p_val
    ∧ hand_value [d0; d1] = Ok d_val
    ∧ if decide (p_val = 21 ∨ d_val = 21) then
        ∃ o, r = Settled (Some table) o
             ∧ o_player_hand o = [c1; c2]
             ∧ s_status <$> blackjacksession db' !! table = Some "finished"
      else r = Playing table [c1; c2] [d0; hidden_card] "playing".
Proof.
  apply (blackjack_start_accepts draws_natural table
           (mkBlackjackStart alice 100) db_signup alice
           (mkPlayer "alice" 1000 0)).
  - vm_compute; reflexivity.
  - vm_compute; reflexivity.
  - discriminate.
  - vm_compute; reflexivity.
Defined.

(** ** Player documents *)

Lemma to_str_id_spec_aux (str_ : value → string) (doc : option (gmap string value)) :
  match doc with
  | None => to_str_id str_ doc = None
  | Some d => ∃ d', to_str_id str_ doc = Some d' ∧ d' !! "_id" = None
  end.
Proof.
  destruct doc as [d|]; [|done]. unfold to_str_id.
  destruct (decide (size d = 0%nat)) as [Hsize|Hsize].
  - apply map_size_empty_iff in Hsize as ->. exists ∅. by rewrite lookup_empty.
  - destruct (d !! "_id") as [v|] eqn:Hid.
    + eexists. split; [done|]. by rewrite lookup_insert_ne, lookup_delete_eq.
    + by exists d.
Qed.

(** X17. [to_str_id] returns a document without the key [_id]. The value
    that was under [_id] is under [id] as a string, taking the place of an
    [id] the document may have had; every other key keeps its value. A
    document without [_id], the empty document and [None] come back as
    they are. *)
Theorem to_str_id_spec (str_ : value → string) (doc : option (gmap string value)) :
  match doc with
  | None => to_str_id str_ doc = None
  | Some d =>
      ∃ d',
        to_str_id str_ doc = Some d'
        ∧ d' !! "_id" = None
        ∧ d' !! "id"
          = match d !! "_id" with
            | Some v => Some (VStr (str_ v))
            | None => d !! "id"
            end
        ∧ (∀ k, k ≠ "id" → k ≠ "_id" → d' !! k = d !! k)
        ∧ (d !! "_id" = None → d' = d)
  end.
Proof.
  destruct doc as [d|]; [|done]. unfold to_str_id.
  destruct (decide (size d = 0%nat)) as [Hsize|Hsize].
  - apply map_size_empty_iff in Hsize as ->. exists ∅. by rewrite !lookup_empty.
  - destruct (d !! "_id") as [v|] eqn:Hid.
    + eexists. split; [done|].
      rewrite lookup_insert_ne, lookup_delete_eq, lookup_insert_eq by done.
      split_and!; try done.
      intros k Hk1 Hk2. by rewrite lookup_insert_ne, lookup_delete_ne.
    + exists d. by rewrite Hid.
Qed.

(** X18. Applying [to_str_id] to its own result changes nothing. *)
Theorem to_str_id_idempotent (str_ : value → string)
    (doc : option (gmap string value)) :
  to_str_id str_ (to_str_id str_ doc) = to_str_id str_ doc.
Proof.
  pose proof (to_str_id_spec_aux str_ doc) as H.
  destruct doc as [d|]; [|done].
  destruct H as (d' & -> & Hnone).
  unfold to_str_id at 1. destruct (decide _); [done|]. by rewrite Hnone.
Qed.

Lemma to_str_id_player_doc (str_ : value → string) oid p :
  to_str_id str_ (Some (player_doc oid p))
  = Some {[ "id" := VStr (str_ (VObjectId oid));
            "nickname" := VStr (nickname p);
            "balance" := VFloat (balance p);
            "vip_level" := VInt (vip_level p) ]}.
Proof.
  unfold to_str_id, player_doc.
  destruct (decide _) as [Hsize|_].
  { apply map_size_empty_iff in Hsize.
    apply (f_equal (λ m : gmap string value, m !! "_id")) in Hsize.
    by rewrite lookup_insert_eq, lookup_empty in Hsize. }
  rewrite lookup_insert_eq. f_equal.
Qed.

(** The answers of [get_player], case by case. *)
Lemma get_player_spec_aux (str_ : value → string) player_id db :
  (∀ r db', get_player str_ player_id db = (r, db') → db' = db)
  ∧ (∀ e, ObjectId player_id = Raise e →
       get_player str_ player_id db
       = (Raise (HTTPException 404 "Player not found"), db))
  ∧ (∀ oid, ObjectId player_id = Ok oid → player db !! oid = None →
       get_player str_ player_id db
       = (Raise (HTTPException 404 "Player not found"), db))
  ∧ (∀ oid p, ObjectId player_id = Ok oid → player db !! oid = Some p →
       get_player str_ player_id db
       = (Ok (Some {[ "id" := VStr (str_ (VObjectId oid));
                      "nickname" := VStr (nickname p);
                      "balance" := VFloat (balance p);
                      "vip_level" := VInt (vip_level p) ]}), db)).
Proof.
  assert (∀ oid p, size (player_doc oid p) ≠ 0%nat) as Hne.
  { intros oid p Hsize. apply map_size_empty_iff in Hsize.
    apply (f_equal (λ m : gmap string value, m !! "_id")) in Hsize.
    unfold player_doc in Hsize.
    by rewrite lookup_insert_eq, lookup_empty in Hsize. }
  split_and!.
  - intros r db'. unfold get_player. unfold_handler.
    repeat case_match; by intros [= _ <-].
  - intros e He. unfold get_player. unfold_handler. by rewrite He.
  - intros oid Hoid Hp. unfold get_player. unfold_handler.
    by rewrite Hoid, Hp.
  - intros oid p Hoid Hp. unfold get_player. unfold_handler.
    rewrite Hoid, Hp. cbn [fmap option_fmap option_map].
    rewrite decide_False by apply Hne.
    by rewrite to_str_id_player_doc.
Qed.


(** X19. [get_player] only reads. An id that is no ObjectId and an id on
    no record are both answered 404; a player on record is returned as a
    document with the id as a string under [id], no [_id], and the name,
    balance and level of the record. *)
Theorem get_player_spec (str_ : value → string) player_id db :
  (∀ r db', get_player str_ player_id db = (r, db') → db' = db)
  ∧ (∀ e, ObjectId player_id = Raise e →
       get_player str_ player_id db
       = (Raise (HTTPException 404 "Player not found"), db))
  ∧ (∀ oid, ObjectId player_id = Ok oid → player db !! oid = None →
       get_player str_ player_id db
       = (Raise (HTTPException 404 "Player not found"), db))
  ∧ (∀ oid p, ObjectId player_id = Ok oid → player db !! oid = Some p →
       get_player str_ player_id db
       = (Ok (Some {[ "id" := VStr (str_ (VObjectId oid));
                      "nickname" := VStr (nickname p);
                      "balance" := VFloat (balance p);
                      "vip_level" := VInt (vip_level p) ]}), db)).
Proof. apply get_player_spec_aux. Qed.

Lemma get_player_spec_witness :
  get_player str_sample "alice" db_signup
  = (Raise (HTTPException 404 "Player not found"), db_signup)
  ∧ get_player str_sample nobody db_signup
    = (Raise (HTTPException 404 "Player not found"), db_signup)
  ∧ get_player str_sample alice db_signup
    = (Ok (Some {[ "id" := VStr alice;
                   "nickname" := VStr "alice";
                   "balance" := VFloat 1000;
                   "vip_level" := VInt 0 ]}), db_signup).
Proof.
  split; [|split].
  - apply (proj1 (proj2 (get_player_spec str_sample "alice" db_signup))
             InvalidId).
    vm_compute; reflexivity.
  - apply (proj1 (proj2 (proj2 (get_player_spec str_sample nobody
                                   db_signup))) nobody).
    + vm_compute; reflexivity.
    + vm_compute; reflexivity.
  - apply (proj2 (proj2 (proj2 (get_player_spec str_sample alice
                                   db_signup))) alice
             (mkPlayer "alice" 1000 0)).
    + vm_compute; reflexivity.
    + vm_compute; reflexivity.
Defined.

(** X20. Signing up and looking the player up. [create_player] answers
    with the new id and a balance of 1000 chips at level 0 and leaves
    sessions and history alone; [get_player] with that id then returns
    the player just created. *)
Theorem create_then_get_player (str_ : value → string) new_id payload db :
  ObjectId new_id = Ok new_id →
  ∃ db1,
    create_player new_id payload db
    = (Ok (new_id, mkPlayer (cp_nickname payload) 1000 0), db1)
    ∧ blackjacksession db1 = blackjacksession db
    ∧ bethistory db1 = bethistory db
    ∧ (∀ oid, oid ≠ new_id → player db1 !! oid = player db !! oid)
    ∧ get_player str_ new_id db1
      = (Ok (Some {[ "id" := VStr (str_ (VObjectId new_id));
                     "nickname" := VStr (cp_nickname payload);
                     "balance" := VFloat 1000;
                     "vip_level" := VInt 0 ]}), db1).
Proof.
  intros Hid. eexists. split; [done|]. simpl. split_and!; try done.
  - intros oid Hne. by rewrite lookup_insert_ne.
  - apply (proj2 (proj2 (proj2 (get_player_spec_aux str_ new_id _))) new_id
             (mkPlayer (cp_nickname payload) 1000 0) Hid).
    simpl. by rewrite lookup_insert_eq.
Qed.

Lemma create_then_get_player_witness :
  ∃ db1,
    create_player alice (mkCreatePlayer "alice") (mkDB ∅ ∅ [])
    = (Ok (alice, mkPlayer "alice" 1000 0), db1)
    ∧ blackjacksession db1 = ∅
    ∧ bethistory db1 = []
    ∧ (∀ oid, oid ≠ alice → player db1 !! oid = (∅ : gmap string Player) !! oid)
    ∧ get_player str_sample alice db1
      = (Ok (Some {[ "id" := VStr alice;
                     "nickname" := VStr "alice";
                     "balance" := VFloat 1000;
                     "vip_level" := VInt 0 ]}), db1).
Proof.
  apply (create_then_get_player str_sample alice (mkCreatePlayer "alice")
           (mkDB ∅ ∅ [])).
  vm_compute; reflexivity.
Defined.

(** ** Roulette and slots, again *)

(** X21. A roulette bet that is paid out changes one balance and the
    history, and nothing else: the player keeps name and level, other
    players and all sessions are left alone, and one record is added with
    the game, the stake, the number and color drawn, the payout and the
    bet as it was placed. *)
Theorem bet_roulette_frame rnd bet db r db' :
  bet_roulette rnd bet db = (Ok r, db') →
  ∃ oid p p' h,
    ObjectId (rb_player_id bet) = Ok oid
    ∧ player db !! oid = Some p
    ∧ (rb_amount bet <= balance p)%Q
    ∧ player db' !! oid = Some p'
    ∧ nickname p' = nickname p ∧ vip_level p' = vip_level p
    ∧ balance p' = rr_balance r
    ∧ (∀ oid', oid' ≠ oid → player db' !! oid' = player db !! oid')
    ∧ blackjacksession db' = blackjacksession db
    ∧ bethistory db' = bethistory db ++ [h]
    ∧ bh_player_id h = rb_player_id bet
    ∧ bh_game h = "roulette"
    ∧ bh_amount h = rb_amount bet
    ∧ bh_result h
      = pretty (rr_result r) +:+ " (" +:+ rr_color r +:+ ")"
    ∧ bh_payout h = rr_payout r
    ∧ bh_metadata h = RouletteMeta (rb_bet_type bet) (rb_value bet).
Proof.
  rewrite bet_roulette_eq. intros H.
  destruct (ObjectId _) as [oid|] eqn:Hoid; [|done].
  destruct (player db !! oid) as [p|] eqn:Hp; [|done].
  destruct (Qltb _ _) eqn:Hb; [done|]. apply Qltb_ge in Hb. simpl in H.
  destruct (roulette_resolve _ _ _) as [wp|]; [|done].
  injection H as <- <-. eexists oid, p, _, _. simpl.
  do 3 (split; [done|]).
  split; [by rewrite lookup_alter_eq, Hp|]. simpl.
  do 3 (split; [done|]).
  split; [intros oid' Hne; by rewrite lookup_alter_ne|].
  by split_and!.
Qed.

Lemma bet_roulette_frame_witness :
  ∃ r db',
    bet_roulette 1 (mkRouletteBet alice 100 "red" None) db_signup = (Ok r, db')
    ∧ ∃ oid p p' h,
        ObjectId alice = Ok oid
        ∧ player db_signup !! oid = Some p
        ∧ (100 <= balance p)%Q
        ∧ player db' !! oid = Some p'
        ∧ nickname p' = nickname p ∧ vip_level p' = vip_level p
        ∧ balance p' = rr_balance r
        ∧ (∀ oid', oid' ≠ oid → player db' !! oid' = player db_signup !! oid')
        ∧ blackjacksession db' = blackjacksession db_signup
        ∧ bethistory db' = bethistory db_signup ++ [h]
        ∧ bh_player_id h = alice
        ∧ bh_game h = "roulette"
        ∧ bh_amount h = 100%Q
        ∧ bh_result h
          = pretty (rr_result r) +:+ " (" +:+ rr_color r +:+ ")"
        ∧ bh_payout h = rr_payout r
        ∧ bh_metadata h = RouletteMeta "red" None.
Proof.
  eexists _, _. split; [vm_compute; reflexivity|].
  apply (bet_roulette_frame 1 (mkRouletteBet alice 100 "red" None) db_signup).
  vm_compute; reflexivity.
Defined.

(** X22. When the ball lands on 0 the color is green, so a bet on red and
    a bet on black both lose their stake; a bet on the number 0 wins 35
    times the stake. *)
Theorem bet_roulette_zero rnd bet db r db' :
  bet_roulette rnd bet db = (Ok r, db') →
  rr_result r = 0 →
  rr_color r = "green"
  ∧ (rb_bet_type bet = "red" ∨ rb_bet_type bet = "black" →
     rr_payout r = round2 (- rb_amount bet))
  ∧ (rb_bet_type bet = "number" → rb_value bet = Some 0 →
     rr_payout r = round2 (rb_amount bet * 35)).
Proof.
  rewrite bet_roulette_eq. intros H.
  destruct (ObjectId _) as [oid|] eqn:Hoid; [|done].
  destruct (player db !! oid) as [p|] eqn:Hp; [|done].
  destruct (Qltb _ _) eqn:Hb; [done|]. simpl in H.
  destruct (roulette_resolve _ _ _) as [wp|] eqn:Hr; [|done].
  injection H as <- <-. simpl. intros Hzero. rewrite Hzero in *.
  change (color_of 0) with "green" in *.
  split; [done|]. revert Hr. unfold roulette_resolve. split.
  - intros Hc. revert Hr. rewrite decide_True by done.
    rewrite decide_False by (destruct Hc as [-> | ->]; discriminate).
    by intros [= <-].
  - intros Hn Hv. revert Hr.
    rewrite decide_False by (rewrite Hn; intros [?|?]; discriminate).
    rewrite decide_True, Hv by done. rewrite decide_True by done.
    by intros [= <-].
Qed.

Lemma bet_roulette_zero_witness :
  ∃ r db',
    bet_roulette 37 (mkRouletteBet alice 100 "black" None) db_signup
    = (Ok r, db')
    ∧ rr_result r = 0
    ∧ rr_color r = "green"
    ∧ ("black" = "red" ∨ "black" = "black" → rr_payout r = round2 (- 100))
    ∧ ("black" = "number" → None = Some 0 → rr_payout r = round2 (100 * 35)).
Proof.
  eexists _, _. split; [vm_compute; reflexivity|].
  split; [vm_compute; reflexivity|].
  eapply (bet_roulette_zero 37 (mkRouletteBet alice 100 "black" None) db_signup).
  - vm_compute; reflexivity.
  - vm_compute; reflexivity.
Defined.

(** X23. A roulette or slots bet that raises, for whatever reason, has
    written nothing. *)
Theorem bets_that_raise_write_nothing :
  (∀ rnd bet db e db', bet_roulette rnd bet db = (Raise e, db') → db' = db)
  ∧ (∀ rnd1 rnd2 rnd3 bet db e db',
       bet_slots rnd1 rnd2 rnd3 bet db = (Raise e, db') → db' = db).
Proof.
  split.
  - intros rnd bet db e db'. rewrite bet_roulette_eq.
    destruct (ObjectId _) as [oid|]; [|by intros [= _ <-]].
    destruct (player db !! oid) as [p|]; [|by intros [= _ <-]].
    destruct (Qltb _ _); [by intros [= _ <-]|]. simpl.
    destruct (roulette_resolve _ _ _) as [wp|]; [done | by intros [= _ <-]].
  - intros rnd1 rnd2 rnd3 bet db e db'.
    destruct (bet_slots_eq rnd1 rnd2 rnd3 bet db)
      as (a & b & c & _ & _ & _ & _ & _ & _ & ->).
    destruct (ObjectId _) as [oid|]; [|by intros [= _ <-]].
    destruct (player db !! oid) as [p|]; [|by intros [= _ <-]].
    destruct (Qltb _ _); [by intros [= _ <-] | done].
Qed.

Lemma bets_that_raise_write_nothing_witness :
  (∀ e db',
     bet_roulette 1 (mkRouletteBet alice 100 "green" None) db_signup
     = (Raise e, db') → db' = db_signup)
  ∧ (∀ e db',
       bet_slots 0 1 2 (mkSlotsBet nobody 100) db_signup = (Raise e, db') →
       db' = db_signup).
Proof.
  split.
  - exact (proj1 bets_that_raise_write_nothing 1%nat
             (mkRouletteBet alice 100 "green" None) db_signup).
  - exact (proj2 bets_that_raise_write_nothing 0%nat 1%nat 2%nat
             (mkSlotsBet nobody 100) db_signup).
Defined.

(** X24. A slots bet that is paid out changes one balance and the history,
    and nothing else. The multiplier is 0, 2, 10 or 20, so the bet loses
    its stake at most and wins 19 times the stake at most; the record
    added holds the reels and the multiplier. *)
Theorem bet_slots_frame rnd1 rnd2 rnd3 bet db r db' :
  bet_slots rnd1 rnd2 rnd3 bet db = (Ok r, db') →
  ∃ oid p p' h mult payout,
    ObjectId (sb_player_id bet) = Ok oid
    ∧ player db !! oid = Some p
    ∧ (sb_amount bet <= balance p)%Q
    ∧ mult ∈ [0; 2; 10; 20]
    ∧ payout = (sb_amount bet * inject_Z mult - sb_amount bet)%Q
    ∧ ((0 <= sb_amount bet)%Q →
       (- sb_amount bet <= payout)%Q ∧ (payout <= 19 * sb_amount bet)%Q)
    ∧ sr_payout r = round2 payout
    ∧ player db' !! oid = Some p'
    ∧ nickname p' = nickname p ∧ vip_level p' = vip_level p
    ∧ balance p' = sr_balance r
    ∧ (∀ oid', oid' ≠ oid → player db' !! oid' = player db !! oid')
    ∧ blackjacksession db' = blackjacksession db
    ∧ bethistory db' = bethistory db ++ [h]
    ∧ bh_player_id h = sb_player_id bet
    ∧ bh_game h = "slots"
    ∧ bh_amount h = sb_amount bet
    ∧ bh_payout h = sr_payout r
    ∧ bh_metadata h = SlotsMeta (sr_reels r) mult.
Proof.
  destruct (bet_slots_eq rnd1 rnd2 rnd3 bet db)
    as (a & b & c & _ & _ & _ & _ & _ & _ & ->).
  intros H.
  destruct (ObjectId _) as [oid|] eqn:Hoid; [|done].
  destruct (player db !! oid) as [p|] eqn:Hp; [|done].
  destruct (Qltb _ _) eqn:Hb; [done|]. apply Qltb_ge in Hb. simpl in H.
  injection H as <- <-.
  set (mult := if decide (a = b ∧ b = c) then (if decide (a = seven) then 20 else 10)
               else if decide (a = b ∨ b = c ∨ a = c) then 2 else 0).
  eexists oid, p, _, _, mult, _. simpl.
  do 3 (split; [done|]).
  split; [unfold mult; repeat case_match; set_solver|].
  split; [done|].
  split; [intros Ha; unfold mult; repeat case_match; unfold inject_Z; lra|].
  split; [done|].
  split; [by rewrite lookup_alter_eq, Hp|]. simpl.
  do 3 (split; [done|]).
  split; [intros oid' Hne; by rewrite lookup_alter_ne|].
  by split_and!.
Qed.

Lemma bet_slots_frame_witness :
  ∃ r db',
    bet_slots 0 6 2 (mkSlotsBet alice 100) db_signup = (Ok r, db')
    ∧ ∃ oid p p' h mult payout,
        ObjectId alice = Ok oid
        ∧ player db_signup !! oid = Some p
        ∧ (100 <= balance p)%Q
        ∧ mult ∈ [0; 2; 10; 20]
        ∧ payout = (100 * inject_Z mult - 100)%Q
        ∧ ((0 <= 100)%Q → (- 100 <= payout)%Q ∧ (payout <= 19 * 100)%Q)
        ∧ sr_payout r = round2 payout
        ∧ player db' !! oid = Some p'
        ∧ nickname p' = nickname p ∧ vip_level p' = vip_level p
        ∧ balance p' = sr_balance r
        ∧ (∀ oid', oid' ≠ oid → player db' !! oid' = player db_signup !! oid')
        ∧ blackjacksession db' = blackjacksession db_signup
        ∧ bethistory db' = bethistory db_signup ++ [h]
        ∧ bh_player_id h = alice
        ∧ bh_game h = "slots"
        ∧ bh_amount h = 100%Q
        ∧ bh_payout h = sr_payout r
        ∧ bh_metadata h = SlotsMeta (sr_reels r) mult.
Proof.
  eexists _, _. split; [vm_compute; reflexivity|].
  apply (bet_slots_frame 0 6 2 (mkSlotsBet alice 100) db_signup).
  vm_compute; reflexivity.
Defined.

(** X25. The multiplier depends on the reels shown, not on their order. *)
Theorem payout_mult_Permutation (reels reels' : list string) :
  reels ≡ₚ reels' → payout_mult reels = payout_mult reels'.
Proof.
  intros Hp. unfold payout_mult.
  assert ((list_to_set reels : gset string) = list_to_set reels') as Hset
    by (by apply list_to_set_perm_L).
  rewrite <- Hset.
  destruct (decide (size (list_to_set reels : gset string) = 1%nat)) as [H1|H1];
    [|done].
  unfold index.
  destruct (reels !! 0%nat) as [x|] eqn:Hx, (reels' !! 0%nat) as [y|] eqn:Hy; simpl.
  - assert (x = y) as ->; [|done].
    apply (size_singleton_inv (list_to_set reels : gset string)); [done| |].
    + apply elem_of_list_to_set. by apply list_elem_of_lookup_2 in Hx.
    + rewrite Hset. apply elem_of_list_to_set.
      by apply list_elem_of_lookup_2 in Hy.
  - destruct reels'; [|done]. apply Permutation_nil_r in Hp. by subst.
  - destruct reels; [|done]. apply Permutation_nil_l in Hp. by subst.
  - done.
Qed.

Lemma payout_mult_Permutation_witness :
  ["🍒"; seven; "🍒"] ≡ₚ [seven; "🍒"; "🍒"]
  ∧ payout_mult ["🍒"; seven; "🍒"] = payout_mult [seven; "🍒"; "🍒"].
Proof.
  assert (["🍒"; seven; "🍒"] ≡ₚ [seven; "🍒"; "🍒"]) as Hp
    by apply Permutation_swap.
  split; [exact Hp|]. exact (payout_mult_Permutation _ _ Hp).
Defined.
